(** * Utilities for the macrophyte analysis: [src/utils.py]

    A shallow embedding of the three functions of [utils.py]:
    - [get_taxon_id]           (name -> NCBI identifiers, or a sentinel string),
    - [get_taxonlist_species]  (identifiers -> names of species and genera),
    - [plot_bar]               (normalised bar chart of a categorical column).

    The Python code talks to a remote service (Bio.Entrez), prints to the
    standard output, raises and catches exceptions and allocates dataframes.
    These effects are threaded through a state-and-exception monad. *)

From stdpp Require Import gmap strings list pretty.

(** ** Exceptions and the monad *)

(** The Python exceptions that the modelled code can meet.  [HTTPError]
    is urllib's error for an HTTP status; it is a subclass of [URLError],
    the error of a failed connection.  [URLError] stands for the instances
    that are not [HTTPError]s: a handler for [HTTPError] lets them pass. *)
Inductive exn :=
| IndexError
| HTTPError
| URLError
| KeyError (key : string)
| ColumnNotFoundError (name : string)
| DuplicateError (name : string)
| ValueError
| AttributeError.

Global Instance exn_eq_dec : EqDecision exn.
Proof. solve_decision. Defined.

(** A computation over a state [S]: it always yields the final state, and
    either raises or returns. *)
Definition M (S A : Type) : Type := S → S * (exn + A).

Definition ret {S A} (a : A) : M S A := λ s, (s, inr a).

Definition raise {S A} (e : exn) : M S A := λ s, (s, inl e).

Definition bind {S A B} (c : M S A) (k : A → M S B) : M S B :=
  λ s, match c s with
       | (s', inl e) => (s', inl e)
       | (s', inr a) => k a s'
       end.

Notation "'let!' x ':=' c 'in' k" := (bind c (λ x, k))
  (at level 10, x name, c at level 100, k at level 200, only parsing).
Notation "'run!' c 'in' k" := (bind c (λ _, k))
  (at level 10, c at level 100, k at level 200, only parsing).

(** [try: body / except e: handler e / else: orelse].  The handler is
    partial: an exception it does not name propagates.  Exceptions of the
    [else] clause are not caught. *)
Definition try_except_else {S A B}
    (body : M S A) (handler : exn → option (M S B)) (orelse : A → M S B)
  : M S B :=
  λ s, match body s with
       | (s', inl e) =>
           match handler e with
           | Some h => h s'
           | None => (s', inl e)
           end
       | (s', inr a) => orelse a s'
       end.

(** [for x in l: acc = body x acc], the loop state [acc] standing for the
    local variables that the body updates. *)
Fixpoint for_in {S A B} (l : list A) (body : A → B → M S B) (acc : B)
  : M S B :=
  match l with
  | [] => ret acc
  | x :: l' => let! acc' := body x acc in for_in l' body acc'
  end.

(** ** The remote service and the world *)

(** A request is one call of [Entrez.esearch] or [Entrez.esummary], with
    its arguments.  What Bio.Entrez does on the wire for one call (it
    sends the HTTP request again, up to [max_tries] times, on an HTTP 5xx
    or 429 status or a [URLError], before it raises) is inside the library
    and is not modelled: a request here is the call, and its [reply] is
    what the call and [Entrez.read] finally give. *)
Inductive request :=
| ESearch (db term : string) (retmax : N)
| ESummary (db id : string) (retmax : N).

(** What [Entrez.read] makes of an answer: it raises, or it yields the
    parsed value. *)
Inductive reply (A : Type) :=
| Raises (e : exn)
| Parsed (a : A).
Arguments Raises {A} e.
Arguments Parsed {A} a.

(** Values of the dictionary parsed from a search answer. *)
Inductive pyval :=
| PStr (s : string)
| PList (l : list string).

Global Instance pyval_eq_dec : EqDecision pyval.
Proof. solve_decision. Defined.

(** A summary record is a dictionary from field names to strings. *)
Abbreviation summary := (gmap string string).

(** The service answers a call knowing all the calls made before it:
    nothing is assumed about it. *)
Record remote := {
  esearch_reply :
    list request → string → string → N → reply (gmap string pyval);
  esummary_reply :
    list request → string → string → N → reply (list summary);
}.

(** The world of the two Entrez functions: the calls of Bio.Entrez made
    so far and the lines printed so far. *)
Record world := {
  log : list request;
  stdout : list string;
}.

Definition sent (r : request) (w : world) : world :=
  {| log := log w ++ [r]; stdout := stdout w |}.

Definition printed (line : string) (w : world) : world :=
  {| log := log w; stdout := stdout w ++ [line] |}.

Definition print (line : string) : M world unit :=
  λ w, (printed line w, inr tt).

(** [d[k]] on a dictionary. *)
Definition getitem {S V} (d : gmap string V) (k : string) : M S V :=
  match d !! k with
  | Some v => ret v
  | None => raise (KeyError k)
  end.

(** [l[0]] on a list. *)
Definition first_item {S A} (l : list A) : M S A :=
  match l with
  | x :: _ => ret x
  | [] => raise IndexError
  end.

Section Entrez.
Variable ncbi : remote.

(** [Entrez.esearch(db=, term=, retmax=)]: one call, logged as such; the
    handle holds the answer. *)
Definition Entrez_esearch (db term : string) (retmax : N)
  : M world (reply (gmap string pyval)) :=
  λ w, (sent (ESearch db term retmax) w,
        inr (esearch_reply ncbi (log w) db term retmax)).

(** [Entrez.esummary(db=, id=, retmax=)]: one call, logged as such. *)
Definition Entrez_esummary (db id : string) (retmax : N)
  : M world (reply (list summary)) :=
  λ w, (sent (ESummary db id retmax) w,
        inr (esummary_reply ncbi (log w) db id retmax)).

(** [Entrez.read(handle)]. *)
Definition Entrez_read {A} (handle : reply A) : M world A :=
  match handle with
  | Raises e => raise e
  | Parsed a => ret a
  end.

(** *** [get_taxon_id] (utils.py, lines 11-32) *)
Definition get_taxon_id (taxon_name : string)
    (ncbi_db : string) (ncbi_idtype : string) : M world pyval :=
  try_except_else
    (let! handle := Entrez_esearch ncbi_db (taxon_name +:+ "[orgn]") 10000%N in
     Entrez_read handle)
    (λ e, match e with
          | HTTPError => Some (ret (PStr "Database error, try later..."))
          | _ => None
          end)
    (λ record,
       let! all_taxaIDs := getitem record "IdList" in
       ret all_taxaIDs).

(** The test of line 58, with Python's short-circuit [and] and [or]:
    ["Genus"] is only read for a species, and ["Rank"] is read a second
    time when the first disjunct is false. *)
Definition rank_test (record : summary) : M world bool :=
  let! rank := getitem record "Rank" in
  let! is_sp := (if String.eqb rank "species"
                 then let! genus := getitem record "Genus" in
                      ret (negb (String.eqb genus ""))
                 else ret false) in
  if is_sp : bool then ret true
  else let! rank' := getitem record "Rank" in
       ret (String.eqb rank' "genus").

(** *** [get_taxonlist_species] (utils.py, lines 35-61) *)

(** The body of the loop, lines 47-59: [species_taxa] goes in and comes
    out. *)
Definition loop_body (ncbi_db : string) (taxon_id : string)
    (species_taxa : list string) : M world (list string) :=
  try_except_else
    (let! handle := Entrez_esummary ncbi_db taxon_id 10000%N in
     let! records := Entrez_read handle in
     first_item records)
    (λ e, match e with
          | IndexError =>
              Some (run! print "New Error. Nemas Problemas!" in
                    ret species_taxa)
          | _ => None
          end)
    (λ record,
       let! ok := rank_test record in
       if ok : bool
       then let! name := getitem record "ScientificName" in
            ret (species_taxa ++ [name])
       else ret species_taxa).

Definition get_taxonlist_species (taxonlist : list string)
    (ncbi_db : string) : M world (list string) :=
  for_in taxonlist (loop_body ncbi_db) [].
End Entrez.

Definition default_db : string := "taxonomy".
Definition default_idtype : string := "acc".

(** ** Dataframes and the heap *)

(** Dataframes are objects: a variable holds a reference, [df = ...] rebinds
    the variable, and [df[c] = ...] updates the object in place.  The heap
    maps references to frames. *)
Definition loc := positive.

Inductive library := Polars | Pandas.

Inductive dtype :=
| Utf8
| Categorical (categories : list string).

(** A cell of a string column: [None] is null (polars) or NaN (pandas). *)
Abbreviation cell := (option string).

(** The two shapes of table that [plot_bar] meets: the dataset it is given,
    with its named columns, and the aggregate of [group_by(key).len()],
    whose rows pair a value of the [key] column with its ["len"]. *)
Inductive table :=
| Columns (cols : gmap string (list cell))
| Counts (key : string) (dt : dtype) (rows : list (cell * nat)).

Record frame := {
  lib : library;
  content : table;
}.

Abbreviation heap := (gmap loc frame).

Definition alloc (o : frame) : M heap loc :=
  λ h, let l := fresh (dom h) in (<[l := o]> h, inr l).

Definition deref (l : loc) : M heap frame :=
  λ h, match h !! l with
       | Some o => (h, inr o)
       | None => (h, inl AttributeError)
       end.

Definition store (l : loc) (o : frame) : M heap unit :=
  λ h, (<[l := o]> h, inr tt).

(** The chart specification built by [df.plot.bar(...)]; it refers to the
    frame it draws. *)
Record chart := {
  chart_data : loc;
  chart_mark : string;
  encoding_x_field : string;
  encoding_x_stack : string;
  encoding_x_title : option string;
  encoding_color_field : string;
  encoding_color_sort : list string;
  encoding_color_scheme : string;
  encoding_color_legend : string;
  encoding_order_field : string;
  properties_title : string;
}.

(** Number of occurrences of [k] in a column. *)
Definition occurrences (k : cell) (vals : list cell) : nat :=
  length (filter (λ v, v = k) vals).

(** One row per distinct value, with its count; null is a group of its
    own. *)
Definition value_counts (vals : list cell) : list (cell * nat) :=
  (λ k, (k, occurrences k vals)) <$> remove_dups vals.

(** [pd.Categorical(values, categories, ordered=True)]: the categories
    must be unique; a value that is not a category becomes NaN. *)
Definition as_category (categories : list string) (v : cell) : cell :=
  match v with
  | Some s => if bool_decide (s ∈ categories) then Some s else None
  | None => None
  end.

Definition pd_Categorical (values : list cell) (categories : list string)
  : exn + list cell :=
  if bool_decide (NoDup categories)
  then inr (as_category categories <$> values)
  else inl ValueError.

(** The predicates [pl.col(category).is_not_null()] and
    [pl.col(category).is_in(l)] on a cell of the column. *)
Definition is_not_null (v : cell) : bool :=
  match v with Some _ => true | None => false end.

Definition is_in (l : list string) (v : cell) : bool :=
  match v with Some s => bool_decide (s ∈ l) | None => false end.

Definition int_to_str (n : nat) : string := pretty n.

Section Plot.
(** polars does not fix the order of the groups of [group_by]: the rows
    come out in some order [group_order]. *)
Variable group_order : list (cell * nat) → list (cell * nat).

(** [df.group_by(category).len()] *)
Definition group_by_len (df : loc) (category : string) : M heap loc :=
  let! o := deref df in
  match o with
  | {| lib := Polars; content := Columns cols |} =>
      match cols !! category with
      | None => raise (ColumnNotFoundError category)
      | Some vals =>
          if String.eqb category "len"
          then raise (DuplicateError "len")
          else alloc {| lib := Polars;
                        content := Counts category Utf8
                                     (group_order (value_counts vals)) |}
      end
  | _ => raise AttributeError
  end.

(** [df.to_pandas()] *)
Definition to_pandas (df : loc) : M heap loc :=
  let! o := deref df in
  match lib o with
  | Polars => alloc {| lib := Pandas; content := content o |}
  | Pandas => raise AttributeError
  end.

(** [pl.from_pandas(df)] *)
Definition from_pandas (df : loc) : M heap loc :=
  let! o := deref df in
  match lib o with
  | Pandas => alloc {| lib := Polars; content := content o |}
  | Polars => raise AttributeError
  end.

(** [df[category] = pd.Categorical(df[category], sort_order, ordered=True)]
    on a pandas frame: the column of the object [df] is replaced. *)
Definition set_categorical (df : loc) (category : string)
    (sort_order : list string) : M heap unit :=
  let! o := deref df in
  match o with
  | {| lib := Pandas; content := Counts key dt rows |} =>
      if String.eqb category key
      then match pd_Categorical rows.*1 sort_order with
           | inl e => raise e
           | inr cats =>
               store df {| lib := Pandas;
                           content := Counts key (Categorical sort_order)
                                        (zip cats rows.*2) |}
           end
      else raise (KeyError category)
  | _ => raise AttributeError
  end.

(** [df.filter(p(pl.col(category)))] *)
Definition filter_col (df : loc) (category : string) (p : cell → bool)
  : M heap loc :=
  let! o := deref df in
  match o with
  | {| lib := Polars; content := Counts key dt rows |} =>
      if String.eqb category key
      then alloc {| lib := Polars;
                    content := Counts key dt (filter (λ r, p r.1) rows) |}
      else raise (ColumnNotFoundError category)
  | _ => raise AttributeError
  end.

(** [df['len'].sum()] *)
Definition sum_len (df : loc) : M heap nat :=
  let! o := deref df in
  match o with
  | {| lib := Polars; content := Counts key dt rows |} =>
      ret (sum_list rows.*2)
  | _ => raise AttributeError
  end.

(** [df.plot.bar(x=..., color=..., order=...).properties(title=...)] *)
Definition plot_bar_of (df : loc) (category : string)
    (sort_order : list string) (title legend_title : string)
  : M heap chart :=
  ret {| chart_data := df;
         chart_mark := "bar";
         encoding_x_field := "len";
         encoding_x_stack := "normalize";
         encoding_x_title := None;
         encoding_color_field := category;
         encoding_color_sort := sort_order;
         encoding_color_scheme := "tableau20";
         encoding_color_legend := legend_title;
         encoding_order_field := "color_" +:+ category +:+ "_sort_index:O";
         properties_title := title |}.

Definition set_x_title (c : chart) (t : string) : chart :=
  {| chart_data := chart_data c;
     chart_mark := chart_mark c;
     encoding_x_field := encoding_x_field c;
     encoding_x_stack := encoding_x_stack c;
     encoding_x_title := Some t;
     encoding_color_field := encoding_color_field c;
     encoding_color_sort := encoding_color_sort c;
     encoding_color_scheme := encoding_color_scheme c;
     encoding_color_legend := encoding_color_legend c;
     encoding_order_field := encoding_order_field c;
     properties_title := properties_title c |}.

(** *** [plot_bar] (utils.py, lines 63-99) *)
Definition plot_bar (df : loc) (category : string)
    (sort_order : list string) (title x_title legend_title : string)
    (filter_list : option (list string)) : M heap chart :=
  let! df := group_by_len df category in
  let! df := to_pandas df in
  run! set_categorical df category sort_order in
  let! df := from_pandas df in
  let! df := filter_col df category is_not_null in
  let! df := match filter_list with
             | Some l => filter_col df category (is_in l)
             | None => ret df
             end in
  let! chart := plot_bar_of df category sort_order title legend_title in
  let! total := sum_len df in
  ret (set_x_title chart (x_title +:+ ", N=" +:+ int_to_str total)).
End Plot.

(** ** Vocabulary of the properties *)

(** The rank predicate of the filter, on a summary record: a species with
    a non-empty genus, or a genus. *)
Definition qualifying (r : summary) : Prop :=
  (r !! "Rank" = Some "species" ∧ ∃ g, r !! "Genus" = Some g ∧ g ≠ "")
  ∨ r !! "Rank" = Some "genus".

Global Instance qualifying_dec r : Decision (qualifying r).
Proof.
  unfold qualifying. destruct (r !! "Genus") as [g|].
  - destruct (decide ((r !! "Rank" = Some "species" ∧ g ≠ "")
                      ∨ r !! "Rank" = Some "genus")) as [HY|HN];
      [left|right].
    + destruct HY as [[Hs Hg]|Hg];
        [left; split; [exact Hs | by exists g] | by right].
    + intros [[Hs (g' & Heq & Hg)]|Hg]; apply HN;
        [left; split; [exact Hs | congruence] | by right].
  - destruct (decide (r !! "Rank" = Some "genus")) as [HY|HN]; [left|right].
    + by right.
    + intros [[_ (g' & Heq & _)]|Hg]; [discriminate | by apply HN].
Defined.

(** The outcome of the test of line 58 on a record: a [KeyError] for a
    field that is read and is missing, or the truth value. *)
Definition rank_outcome (r : summary) : exn + bool :=
  match r !! "Rank" with
  | None => inl (KeyError "Rank")
  | Some rk =>
      if String.eqb rk "species"
      then match r !! "Genus" with
           | None => inl (KeyError "Genus")
           | Some _ => inr (bool_decide (qualifying r))
           end
      else inr (bool_decide (qualifying r))
  end.

(** A record that exposes the three fields the filter reads. *)
Definition exposes_fields (r : summary) : Prop :=
  is_Some (r !! "Rank") ∧ is_Some (r !! "Genus")
  ∧ is_Some (r !! "ScientificName").

(** An answer to a summary request that the loop survives: an empty
    answer (or an index error), or an answer whose first record exposes
    the three fields. *)
Definition survivable (rp : reply (list summary)) : Prop :=
  match rp with
  | Parsed [] => True
  | Parsed (r :: _) => exposes_fields r
  | Raises e => e = IndexError
  end.

(** The name that an answer contributes to the output, if any. *)
Definition contribution (rp : reply (list summary)) : option string :=
  match rp with
  | Parsed (r :: _) =>
      if decide (qualifying r) then r !! "ScientificName" else None
  | _ => None
  end.

Definition summary_request (db id : string) : request :=
  ESummary db id 10000%N.

(** The answers that the service gives to one summary request per
    identifier, in order, starting from the log [log0]. *)
Fixpoint replies (ncbi : remote) (db : string) (log0 : list request)
    (ids : list string) : list (reply (list summary)) :=
  match ids with
  | [] => []
  | id :: ids' =>
      esummary_reply ncbi log0 db id 10000%N
      :: replies ncbi db (log0 ++ [summary_request db id]) ids'
  end.

(** A stable service: the answer to a summary request does not depend on
    what was asked before. *)
Definition stable (ncbi : remote) : Prop :=
  ∀ log1 log2 db id retmax,
    esummary_reply ncbi log1 db id retmax
    = esummary_reply ncbi log2 db id retmax.

(** The outcome of a run with [acc] put in front of the list returned. *)
Definition prepend {S} (acc : list string) (o : S * (exn + list string))
  : S * (exn + list string) :=
  match o with
  | (s, inr l) => (s, inr (acc ++ l))
  | (s, inl e) => (s, inl e)
  end.

Definition sentinel : string := "Database error, try later...".
Definition diagnostic : string := "New Error. Nemas Problemas!".

(** A Hoare triple for heap computations, with a postcondition for the
    normal and one for the exceptional outcome. *)
Definition triple {A} (P : heap → Prop) (c : M heap A)
    (Q : A → heap → Prop) (E : exn → heap → Prop) : Prop :=
  ∀ h, P h → match c h with
             | (h', inr a) => Q a h'
             | (h', inl e) => E e h'
             end.

(** [keeps h0 h]: every frame of the heap [h0] is still in [h], unchanged.
    [unknown h0 l]: the reference [l] is not one of [h0]. *)
Definition keeps (h0 h : heap) : Prop := h0 ⊆ h.
Definition unknown (h0 : heap) (l : loc) : Prop := h0 !! l = None.

(** [holds l o h]: the reference [l] holds the frame [o] in [h]. *)
Definition holds (l : loc) (o : frame) (h : heap) : Prop := h !! l = Some o.

(** No exceptional outcome. *)
Definition never : exn → heap → Prop := λ _ _, False.

(** The rows that the chart keeps: the value is listed in [sort_order]
    and, when a filter is given, in the filter. *)
Definition kept (sort_order : list string) (filter_list : option (list string))
    (v : cell) : bool :=
  is_in sort_order v
  && match filter_list with
     | Some l => is_in l v
     | None => true
     end.

(** ** Examples *)

Definition taxon (rank genus name : string) : summary :=
  {[ "Rank" := rank; "Genus" := genus; "ScientificName" := name ]}.

(** A service that knows three taxa: [A], a species without genus, [B], a
    genus, and [C], a species with its genus.  It has no summary for ["0"]
    and fails on every other identifier; it finds two identifiers for
    ["Lemna"] and fails on every other search. *)
Definition example_ncbi : remote := {|
  esearch_reply := λ _ _ term _,
    if String.eqb term "Lemna[orgn]"
    then Parsed {[ "Count" := PStr "2"; "IdList" := PList ["4471"; "4472"] ]}
    else Raises HTTPError;
  esummary_reply := λ _ _ id _,
    if String.eqb id "A"
    then Parsed [taxon "species" "" "environmental samples"]
    else if String.eqb id "B"
    then Parsed [taxon "genus" "" "Lemna"]
    else if String.eqb id "C"
    then Parsed [taxon "species" "Lemna" "Lemna minor"]
    else if String.eqb id "0"
    then Parsed []
    else Raises HTTPError;
|}.

Definition new_world : world := {| log := []; stdout := [] |}.

(** A dataset with one column, of categories x, x, y, z and null. *)
Definition example_column : list cell :=
  [Some "x"; Some "x"; Some "y"; Some "z"; None].

Definition example_heap : heap :=
  {[ 1%positive := {| lib := Polars;
                      content := Columns {[ "kind" := example_column ]} |} ]}.

(** Groups in the order of their first row. *)
Definition first_seen (rows : list (cell * nat)) : list (cell * nat) := rows.

(** ** Vocabulary of further properties *)

(** An answer without a first record: the loop skips the identifier and
    prints the diagnostic. *)
Definition empty_answer (rp : reply (list summary)) : bool :=
  match rp with
  | Parsed [] | Raises IndexError => true
  | _ => false
  end.

(** How a summary answer makes the loop raise [e]: the fetch raises [e]
    (not an index error), or the first record lacks a field that is
    read. *)
Definition failure (rp : reply (list summary)) (e : exn) : Prop :=
  match rp with
  | Raises e' => e' = e ∧ e ≠ IndexError
  | Parsed [] => False
  | Parsed (r :: _) =>
      (e = KeyError "Rank" ∧ r !! "Rank" = None)
      ∨ (e = KeyError "Genus"
         ∧ r !! "Rank" = Some "species" ∧ r !! "Genus" = None)
      ∨ (e = KeyError "ScientificName"
         ∧ qualifying r ∧ r !! "ScientificName" = None)
  end.

(** Two records that agree on the three fields that the loop reads. *)
Definition alike_records (r1 r2 : summary) : Prop :=
  r1 !! "Rank" = r2 !! "Rank"
  ∧ r1 !! "Genus" = r2 !! "Genus"
  ∧ r1 !! "ScientificName" = r2 !! "ScientificName".

(** Two answers that raise the same exception, or are both empty, or
    whose first records are alike. *)
Definition alike (rp1 rp2 : reply (list summary)) : Prop :=
  match rp1, rp2 with
  | Raises e1, Raises e2 => e1 = e2
  | Parsed [], Parsed [] => True
  | Parsed (r1 :: _), Parsed (r2 :: _) => alike_records r1 r2
  | _, _ => False
  end.

(** A service with incomplete answers: the search for ["Lemna"] has no
    ["IdList"], the search for ["Elodea"] cannot be parsed; the summary of
    [S] is a species without the field Genus, that of [G] a genus without
    it, that of [F] a family with its rank only, that of [N] a genus
    without a name, and [I] raises an index error. *)
Definition faulty_ncbi : remote := {|
  esearch_reply := λ _ _ term _,
    if String.eqb term "Lemna[orgn]"
    then Parsed {[ "Count" := PStr "0" ]}
    else if String.eqb term "Elodea[orgn]"
    then Raises ValueError
    else Raises HTTPError;
  esummary_reply := λ _ _ id _,
    if String.eqb id "S"
    then Parsed [{[ "Rank" := "species"; "ScientificName" := "Lemna minor" ]}]
    else if String.eqb id "G"
    then Parsed [{[ "Rank" := "genus"; "ScientificName" := "Lemna" ]}]
    else if String.eqb id "F"
    then Parsed [{[ "Rank" := "family" ]}]
    else if String.eqb id "N"
    then Parsed [{[ "Rank" := "genus" ]}]
    else if String.eqb id "I"
    then Raises IndexError
    else esummary_reply example_ncbi [] "" id 0%N;
|}.

(** A service that cannot be reached: every call fails with a
    [URLError]. *)
Definition offline_ncbi : remote := {|
  esearch_reply := λ _ _ _ _, Raises URLError;
  esummary_reply := λ _ _ _ _, Raises URLError;
|}.

(** The service of the examples, with a second record and one more field
    in every non-empty summary. *)
Definition verbose_ncbi : remote := {|
  esearch_reply := esearch_reply example_ncbi;
  esummary_reply := λ log0 db id retmax,
    match esummary_reply example_ncbi log0 db id retmax with
    | Parsed (r :: rs) =>
        Parsed (<["TaxId" := id]> r :: taxon "genus" "" "Elodea" :: rs)
    | rp => rp
    end;
|}.

(** Groups in the reverse order. *)
Definition last_seen (rows : list (cell * nat)) : list (cell * nat) :=
  reverse rows.

(** The dataset of the examples with its rows in the reverse order. *)
Definition shuffled_column : list cell :=
  [None; Some "z"; Some "y"; Some "x"; Some "x"].

Definition shuffled_heap : heap :=
  {[ 7%positive := {| lib := Polars;
                      content := Columns {[ "kind" := shuffled_column ]} |} ]}.

(** * Properties *)

(** ** The monad and the loop *)

Lemma for_in_app {S A B} (l1 l2 : list A) (body : A → B → M S B) acc s :
  for_in (l1 ++ l2) body acc s
  = bind (for_in l1 body acc) (for_in l2 body) s.
Proof.
  revert acc s. induction l1 as [|x l1 IH]; intros acc s; simpl.
  - reflexivity.
  - unfold bind. destruct (body x acc s) as [s' [e|acc']]; [done|].
    by rewrite IH.
Qed.

(** ** The rank predicate *)

Lemma qualifying_fields (r : summary) rk g :
  r !! "Rank" = Some rk → r !! "Genus" = Some g →
  qualifying r ↔ (rk = "species" ∧ g ≠ "") ∨ rk = "genus".
Proof.
  intros Hrk Hg. unfold qualifying. rewrite Hrk, Hg. split.
  - intros [[Hs (g' & Hg' & Hne)]|Hge]; [left; split|right]; congruence.
  - intros [[-> Hne] | ->]; [left; split; [done|by exists g] | by right].
Qed.

Lemma qualifying_other_rank (r : summary) rk :
  r !! "Rank" = Some rk → rk ≠ "species" →
  qualifying r ↔ rk = "genus".
Proof.
  intros Hrk Hsp. unfold qualifying. rewrite Hrk. split.
  - intros [[Hs _]|Hge]; congruence.
  - intros ->. by right.
Qed.

Section EntrezFacts.
Variable ncbi : remote.

(** The test of line 58 fails on a missing field that it reads, and
    otherwise decides the rank predicate; it never touches the world. *)
Lemma rank_test_eq r w : rank_test r w = (w, rank_outcome r).
Proof.
  unfold rank_test, rank_outcome, getitem, bind, ret, raise.
  destruct (r !! "Rank") as [rk|] eqn:Hrk; simpl; [|done].
  destruct (String.eqb_spec rk "species") as [->|Hsp].
  - destruct (r !! "Genus") as [g|] eqn:Hg; simpl; [|done].
    pose proof (qualifying_fields r _ _ Hrk Hg) as Hq.
    destruct (String.eqb_spec g "") as [->|Hne]; simpl; do 2 f_equal;
      symmetry.
    + apply bool_decide_eq_false. rewrite Hq. intros [[_ ?]|?]; done.
    + apply bool_decide_eq_true. rewrite Hq. by left.
  - simpl. do 2 f_equal.
    pose proof (qualifying_other_rank r _ Hrk Hsp) as Hq.
    destruct (String.eqb_spec rk "genus") as [->|Hge]; symmetry.
    + by apply bool_decide_eq_true, Hq.
    + apply bool_decide_eq_false. by rewrite Hq.
Qed.

Lemma rank_outcome_exposed r :
  exposes_fields r → rank_outcome r = inr (bool_decide (qualifying r)).
Proof.
  intros ([rk Hrk] & [g Hg] & _). unfold rank_outcome. rewrite Hrk, Hg.
  by destruct (String.eqb rk "species").
Qed.

Lemma rank_outcome_returns r b :
  rank_outcome r = inr b → b = bool_decide (qualifying r).
Proof.
  unfold rank_outcome. destruct (r !! "Rank") as [rk|]; [|done].
  destruct (String.eqb rk "species"); [|congruence].
  destruct (r !! "Genus"); [congruence|done].
Qed.

(** *** The loop body in closed form *)

Lemma loop_body_eq db id acc w :
  loop_body ncbi db id acc w =
  let w1 := sent (summary_request db id) w in
  match esummary_reply ncbi (log w) db id 10000%N with
  | Raises IndexError | Parsed [] => (printed diagnostic w1, inr acc)
  | Raises e => (w1, inl e)
  | Parsed (r :: _) =>
      match rank_outcome r with
      | inl e => (w1, inl e)
      | inr true =>
          match r !! "ScientificName" with
          | Some name => (w1, inr (acc ++ [name]))
          | None => (w1, inl (KeyError "ScientificName"))
          end
      | inr false => (w1, inr acc)
      end
  end.
Proof.
  unfold loop_body, try_except_else, bind, Entrez_esummary, Entrez_read.
  simpl.
  destruct (esummary_reply ncbi (log w) db id 10000%N) as [e|[|r rs]];
    simpl.
  - by destruct e.
  - reflexivity.
  - rewrite rank_test_eq.
    destruct (rank_outcome r) as [e|[|]]; [done| |done].
    unfold getitem. by destruct (r !! "ScientificName").
Qed.

(** The body only ever appends to [species_taxa]. *)
Lemma loop_body_prepend db id acc w :
  loop_body ncbi db id acc w = prepend acc (loop_body ncbi db id [] w).
Proof.
  rewrite !loop_body_eq. simpl.
  destruct (esummary_reply ncbi (log w) db id 10000%N) as [e|[|r rs]].
  - destruct e; simpl; by rewrite ?app_nil_r.
  - simpl. by rewrite app_nil_r.
  - destruct (rank_outcome r) as [e|[|]]; simpl; [done| |].
    + by destruct (r !! "ScientificName").
    + by rewrite app_nil_r.
Qed.

(** When the body returns, it has sent one request and it returns the
    contribution of the answer. *)
Lemma loop_body_returns db id w w1 l :
  loop_body ncbi db id [] w = (w1, inr l) →
  l = option_list (contribution (esummary_reply ncbi (log w) db id 10000%N))
  ∧ log w1 = log w ++ [summary_request db id].
Proof.
  rewrite loop_body_eq. simpl.
  destruct (esummary_reply ncbi (log w) db id 10000%N) as [e|[|r rs]];
    simpl.
  - destruct e; try done. by intros [= <- <-].
  - by intros [= <- <-].
  - destruct (rank_outcome r) as [e|b] eqn:Hb; [done|].
    apply rank_outcome_returns in Hb as ->.
    destruct (decide (qualifying r)) as [Hq|Hq].
    + rewrite bool_decide_eq_true_2 by done.
      destruct (r !! "ScientificName"); [|done]. by intros [= <- <-].
    + rewrite bool_decide_eq_false_2 by done. by intros [= <- <-].
Qed.

(** On a survivable answer the body returns. *)
Lemma loop_body_survives db id w :
  survivable (esummary_reply ncbi (log w) db id 10000%N) →
  ∃ w1 l, loop_body ncbi db id [] w = (w1, inr l).
Proof.
  rewrite loop_body_eq. simpl.
  destruct (esummary_reply ncbi (log w) db id 10000%N) as [e|[|r rs]];
    simpl.
  - intros ->. eauto.
  - eauto.
  - intros Hr. rewrite (rank_outcome_exposed r Hr).
    destruct Hr as (_ & _ & [n Hn]). rewrite Hn.
    destruct (bool_decide (qualifying r)); eauto.
Qed.

Lemma prepend_prepend {S} acc1 acc2 (o : S * (exn + list string)) :
  prepend acc1 (prepend acc2 o) = prepend (acc1 ++ acc2) o.
Proof. destruct o as [s [e|l]]; simpl; by rewrite ?app_assoc. Qed.

Lemma for_in_prepend db ids acc w :
  for_in ids (loop_body ncbi db) acc w
  = prepend acc (get_taxonlist_species ncbi ids db w).
Proof.
  unfold get_taxonlist_species. revert acc w.
  induction ids as [|id ids IH]; intros acc w; simpl.
  - by rewrite app_nil_r.
  - unfold bind. rewrite (loop_body_prepend db id acc w).
    destruct (loop_body ncbi db id [] w) as [w1 [e|l]]; simpl; [done|].
    rewrite (IH (acc ++ l)), (IH l). by rewrite prepend_prepend.
Qed.

(** Unfolding the function on a non-empty list and on a concatenation. *)
Lemma get_taxonlist_species_cons id ids db w :
  get_taxonlist_species ncbi (id :: ids) db w =
  match loop_body ncbi db id [] w with
  | (w1, inl e) => (w1, inl e)
  | (w1, inr l) => prepend l (get_taxonlist_species ncbi ids db w1)
  end.
Proof.
  unfold get_taxonlist_species at 1. simpl. unfold bind.
  destruct (loop_body ncbi db id [] w) as [w1 [e|l]]; [done|].
  apply for_in_prepend.
Qed.

Lemma get_taxonlist_species_app pre post db w :
  get_taxonlist_species ncbi (pre ++ post) db w =
  match get_taxonlist_species ncbi pre db w with
  | (w1, inl e) => (w1, inl e)
  | (w1, inr names1) => prepend names1 (get_taxonlist_species ncbi post db w1)
  end.
Proof.
  unfold get_taxonlist_species at 1. rewrite for_in_app. unfold bind.
  fold (get_taxonlist_species ncbi pre db w).
  destruct (get_taxonlist_species ncbi pre db w) as [w1 [e|l]]; [done|].
  apply for_in_prepend.
Qed.

(** *** What a run that returns has returned *)

Lemma get_taxonlist_species_returns ids db w w' names :
  get_taxonlist_species ncbi ids db w = (w', inr names) →
  names = omap contribution (replies ncbi db (log w) ids)
  ∧ log w' = log w ++ (summary_request db <$> ids).
Proof.
  revert w w' names. induction ids as [|id ids IH]; intros w w' names.
  - intros [= <- <-]. simpl. by rewrite app_nil_r.
  - rewrite get_taxonlist_species_cons.
    destruct (loop_body ncbi db id [] w) as [w1 [e|l]] eqn:Hbody; [done|].
    apply loop_body_returns in Hbody as [-> Hlog].
    destruct (get_taxonlist_species ncbi ids db w1) as [w2 [e|l']] eqn:Hrun;
      simpl; [done|].
    intros [= <- <-]. apply IH in Hrun as [-> ->].
    rewrite Hlog, <- app_assoc. split; [|done].
    simpl. by destruct (contribution _).
Qed.

(** *** A run over survivable answers returns *)

Lemma get_taxonlist_species_survives ids db w :
  Forall survivable (replies ncbi db (log w) ids) →
  ∃ w' names, get_taxonlist_species ncbi ids db w = (w', inr names).
Proof.
  revert w. induction ids as [|id ids IH]; intros w Hall.
  - by exists w, [].
  - simpl in Hall. apply Forall_cons in Hall as [Hhd Htl].
    rewrite get_taxonlist_species_cons.
    destruct (loop_body_survives db id w Hhd) as (w1 & l & Hbody).
    rewrite Hbody. apply loop_body_returns in Hbody as [_ Hlog].
    rewrite <- Hlog in Htl.
    destruct (IH w1 Htl) as (w' & names & ->). simpl. eauto.
Qed.

(** *** What is printed stays printed *)

Lemma prepend_fst {S} acc (o : S * (exn + list string)) :
  (prepend acc o).1 = o.1.
Proof. by destruct o as [s [e|l]]. Qed.

Lemma loop_body_stdout db id acc w :
  stdout w `prefix_of` stdout (loop_body ncbi db id acc w).1.
Proof.
  rewrite loop_body_eq. simpl.
  destruct (esummary_reply ncbi (log w) db id 10000%N) as [e|[|r rs]].
  - destruct e; simpl; first [by apply prefix_app_r | done].
  - simpl. by apply prefix_app_r.
  - destruct (rank_outcome r) as [e|[|]]; [done| |done].
    by destruct (r !! "ScientificName").
Qed.

Lemma get_taxonlist_species_stdout ids db w :
  stdout w `prefix_of` stdout (get_taxonlist_species ncbi ids db w).1.
Proof.
  revert w. induction ids as [|id ids IH]; intros w; [done|].
  rewrite get_taxonlist_species_cons.
  pose proof (loop_body_stdout db id [] w) as Hbody.
  destruct (loop_body ncbi db id [] w) as [w1 [e|l]]; [done|].
  rewrite prepend_fst. etrans; [exact Hbody|apply IH].
Qed.
End EntrezFacts.

(** ** Properties of [get_taxon_id] *)

(** C2, as amended.  When the search raises [HTTPError], the one
    exception that the handler names, [get_taxon_id] does not raise: it
    returns the sentinel string ["Database error, try later..."], having
    called [Entrez.esearch] exactly once (it does not call again) and
    printed nothing.  The claim as it stands, for every transport or
    protocol error, fails: see the counterexample below. *)
Theorem get_taxon_id_soft_failure (ncbi : remote)
    (taxon_name ncbi_db ncbi_idtype : string) (w : world) :
  esearch_reply ncbi (log w) ncbi_db (taxon_name +:+ "[orgn]") 10000%N
    = Raises HTTPError →
  get_taxon_id ncbi taxon_name ncbi_db ncbi_idtype w
  = (sent (ESearch ncbi_db (taxon_name +:+ "[orgn]") 10000%N) w,
     inr (PStr "Database error, try later...")).
Proof.
  intros Hreply.
  unfold get_taxon_id, try_except_else, bind, Entrez_esearch, Entrez_read.
  simpl. by rewrite Hreply.
Qed.

(** C2, counterexample to the claim as it stands.  When the service
    cannot be reached the search fails with a transport error, [URLError];
    the handler does not name it, so [get_taxon_id] raises it and does not
    return the sentinel string. *)
Lemma get_taxon_id_soft_failure_counterexample :
  esearch_reply offline_ncbi (log new_world) default_db
    ("Lemna" +:+ "[orgn]") 10000%N = Raises URLError
  ∧ get_taxon_id offline_ncbi "Lemna" default_db default_idtype new_world
    = (sent (ESearch default_db "Lemna[orgn]" 10000%N) new_world,
       inl URLError)
  ∧ (get_taxon_id offline_ncbi "Lemna" default_db default_idtype
       new_world).2 ≠ inr (PStr "Database error, try later...").
Proof.
  split; [reflexivity|]. split; [reflexivity|]. discriminate.
Qed.

(** C7. When the search request completes and the parsed answer holds the
    list [ids] in its field ["IdList"], [get_taxon_id] returns that list,
    in that order (possibly empty); what it returns is not the sentinel
    string. *)
Theorem get_taxon_id_success (ncbi : remote)
    (taxon_name ncbi_db ncbi_idtype : string) (w : world)
    (record : gmap string pyval) (ids : list string) :
  esearch_reply ncbi (log w) ncbi_db (taxon_name +:+ "[orgn]") 10000%N
    = Parsed record →
  record !! "IdList" = Some (PList ids) →
  get_taxon_id ncbi taxon_name ncbi_db ncbi_idtype w
  = (sent (ESearch ncbi_db (taxon_name +:+ "[orgn]") 10000%N) w,
     inr (PList ids))
  ∧ (get_taxon_id ncbi taxon_name ncbi_db ncbi_idtype w).2
    ≠ inr (PStr sentinel).
Proof.
  intros Hreply Hids.
  assert (get_taxon_id ncbi taxon_name ncbi_db ncbi_idtype w
          = (sent (ESearch ncbi_db (taxon_name +:+ "[orgn]") 10000%N) w,
             inr (PList ids))) as Hrun.
  { unfold get_taxon_id, try_except_else, bind, Entrez_esearch, Entrez_read.
    simpl. rewrite Hreply. simpl. unfold getitem. by rewrite Hids. }
  split; [exact Hrun|]. rewrite Hrun. simpl. congruence.
Qed.

(** X21. Only [HTTPError] is handled: any other exception of the search
    propagates. *)
Lemma get_taxon_id_propagates (ncbi : remote)
    (taxon_name ncbi_db ncbi_idtype : string) (w : world) (e : exn) :
  esearch_reply ncbi (log w) ncbi_db (taxon_name +:+ "[orgn]") 10000%N
    = Raises e →
  e ≠ HTTPError →
  get_taxon_id ncbi taxon_name ncbi_db ncbi_idtype w
  = (sent (ESearch ncbi_db (taxon_name +:+ "[orgn]") 10000%N) w, inl e).
Proof.
  intros Hreply He.
  unfold get_taxon_id, try_except_else, bind, Entrez_esearch, Entrez_read.
  simpl. rewrite Hreply. simpl. by destruct e.
Qed.

(** ** Properties of [get_taxonlist_species] *)

Lemma replies_length ncbi db log0 ids :
  length (replies ncbi db log0 ids) = length ids.
Proof.
  revert log0. induction ids as [|id ids IH]; intros log0; simpl; [done|].
  by rewrite IH.
Qed.

Lemma omap_length_le {A B} (f : A → option B) (l : list A) :
  length (omap f l) ≤ length l.
Proof.
  induction l as [|x l IH]; [done|].
  change (omap f (x :: l))
    with (match f x with Some y => y :: omap f l | None => omap f l end).
  destruct (f x); simpl; lia.
Qed.

(** The answer at position [i] is the answer to the request for the
    [i]-th identifier, after the requests for the identifiers before it. *)
Lemma replies_lookup ncbi db log0 ids i rp :
  replies ncbi db log0 ids !! i = Some rp →
  ∃ id, ids !! i = Some id
        ∧ rp = esummary_reply ncbi
                 (log0 ++ (summary_request db <$> take i ids)) db id 10000%N.
Proof.
  revert log0 i. induction ids as [|id ids IH]; intros log0 i.
  { simpl. by rewrite lookup_nil. }
  destruct i as [|i]; simpl.
  - intros [= <-]. exists id. by rewrite app_nil_r.
  - intros Hi. destruct (IH _ _ Hi) as (id' & Hid' & ->).
    exists id'. split; [done|]. by rewrite <- app_assoc.
Qed.

(** C1. When every summary answer is survivable (empty, or with a first
    record that exposes Rank, Genus and ScientificName), the function
    returns, for the identifiers in their order, the scientific name of
    the first record exactly when the record is a species with a non-empty
    genus or a genus (the [contribution] of the answer), and nothing for the
    other identifiers; it calls [Entrez.esummary] once per identifier, in
    the order of the input. *)
Theorem rank_filter_selects (ncbi : remote) (taxonlist : list string)
    (ncbi_db : string) (w : world) :
  Forall survivable (replies ncbi ncbi_db (log w) taxonlist) →
  ∃ w', get_taxonlist_species ncbi taxonlist ncbi_db w
        = (w', inr (omap contribution
                      (replies ncbi ncbi_db (log w) taxonlist)))
        ∧ log w' = log w ++ (summary_request ncbi_db <$> taxonlist).
Proof.
  intros Hall.
  destruct (get_taxonlist_species_survives ncbi _ _ _ Hall)
    as (w' & names & Hrun).
  exists w'. destruct (get_taxonlist_species_returns ncbi _ _ _ _ _ Hrun)
    as [-> Hlog].
  by split.
Qed.

(** C8. Whenever the function returns a list, that list is no longer than
    the input, and each of its names is the ScientificName of the first
    record answered for some input identifier, a record that satisfies the
    rank predicate. *)
Theorem rank_filter_bounded (ncbi : remote) (taxonlist : list string)
    (ncbi_db : string) (w w' : world) (names : list string) :
  get_taxonlist_species ncbi taxonlist ncbi_db w = (w', inr names) →
  length names ≤ length taxonlist
  ∧ ∀ name, name ∈ names →
      ∃ i id r rest,
        taxonlist !! i = Some id
        ∧ esummary_reply ncbi
            (log w ++ (summary_request ncbi_db <$> take i taxonlist))
            ncbi_db id 10000%N = Parsed (r :: rest)
        ∧ qualifying r
        ∧ r !! "ScientificName" = Some name.
Proof.
  intros Hrun.
  apply get_taxonlist_species_returns in Hrun as [-> _]. split.
  - rewrite <- (replies_length ncbi ncbi_db (log w) taxonlist).
    apply omap_length_le.
  - intros name Hin. apply list_elem_of_omap in Hin as (rp & Hrp & Hc).
    apply list_elem_of_lookup in Hrp as [i Hi].
    apply replies_lookup in Hi as (id & Hid & ->).
    exists i, id. unfold contribution in Hc.
    destruct (esummary_reply _ _ _ _ _) as [e|[|r rest]]; try done.
    destruct (decide (qualifying r)); [|done]. by exists r, rest.
Qed.

Lemma prepend_snd {S} acc (o : S * (exn + list string)) :
  (prepend acc o).2 = match o.2 with
                      | inl e => inl e
                      | inr l => inr (acc ++ l)
                      end.
Proof. by destruct o as [s [e|l]]. Qed.

(** With a stable service the outcome does not depend on the world in
    which the function starts. *)
Lemma stable_outcome ncbi ids db w1 w2 :
  stable ncbi →
  (get_taxonlist_species ncbi ids db w1).2
  = (get_taxonlist_species ncbi ids db w2).2.
Proof.
  intros Hst. revert w1 w2. induction ids as [|id ids IH]; intros w1 w2.
  - reflexivity.
  - rewrite !get_taxonlist_species_cons, !loop_body_eq. simpl.
    rewrite (Hst (log w1) (log w2)).
    destruct (esummary_reply ncbi (log w2) db id 10000%N) as [e|[|r rs]].
    + destruct e; try done. rewrite !prepend_snd. by erewrite IH.
    + rewrite !prepend_snd. by erewrite IH.
    + destruct (rank_outcome r) as [e|[|]]; [done| |].
      * destruct (r !! "ScientificName"); [|done].
        rewrite !prepend_snd. by erewrite IH.
      * rewrite !prepend_snd. by erewrite IH.
Qed.

(** C9. With a stable service (the answer to a summary request does not
    depend on the earlier requests), running the function a second time on
    the same list, in the world left by the first run, yields the same
    outcome: the same list of names. *)
Theorem rank_filter_idempotent (ncbi : remote) (taxonlist : list string)
    (ncbi_db : string) (w : world) :
  stable ncbi →
  (get_taxonlist_species ncbi taxonlist ncbi_db
     (get_taxonlist_species ncbi taxonlist ncbi_db w).1).2
  = (get_taxonlist_species ncbi taxonlist ncbi_db w).2.
Proof. intros Hst. by apply stable_outcome. Qed.

(** C5. When the summary answer for an identifier is empty, the index
    error is caught: the diagnostic line is printed (and is in the output
    at the end of the run), nothing is appended for this identifier, and
    the loop goes on with the identifiers that follow; the names collected
    before ([names1]) are kept and the names of the identifiers after it
    follow them. *)
Theorem rank_filter_skips_empty (ncbi : remote)
    (pre : list string) (taxon_id : string) (post : list string)
    (ncbi_db : string) (w w1 : world) (names1 : list string) :
  get_taxonlist_species ncbi pre ncbi_db w = (w1, inr names1) →
  esummary_reply ncbi (log w1) ncbi_db taxon_id 10000%N = Parsed [] →
  get_taxonlist_species ncbi (pre ++ taxon_id :: post) ncbi_db w
  = prepend names1
      (get_taxonlist_species ncbi post ncbi_db
         (printed "New Error. Nemas Problemas!"
            (sent (summary_request ncbi_db taxon_id) w1)))
  ∧ "New Error. Nemas Problemas!"
    ∈ stdout (get_taxonlist_species ncbi (pre ++ taxon_id :: post)
                ncbi_db w).1.
Proof.
  intros Hpre Hreply.
  assert (get_taxonlist_species ncbi (pre ++ taxon_id :: post) ncbi_db w
          = prepend names1
              (get_taxonlist_species ncbi post ncbi_db
                 (printed "New Error. Nemas Problemas!"
                    (sent (summary_request ncbi_db taxon_id) w1)))) as Hrun.
  { rewrite get_taxonlist_species_app, Hpre.
    rewrite get_taxonlist_species_cons, loop_body_eq. simpl.
    rewrite Hreply. simpl.
    by destruct (get_taxonlist_species ncbi post ncbi_db _) as [w2 [e|l]]. }
  split; [exact Hrun|]. rewrite Hrun, prepend_fst.
  eapply elem_of_prefix;
    [|apply get_taxonlist_species_stdout]. simpl.
  apply elem_of_app. right. by left.
Qed.

(** C6. When the summary fetch for an identifier raises [HTTPError], the
    function raises it: the call has been made, nothing is printed, no
    later identifier is looked up, and the names collected before are not
    returned. *)
Theorem rank_filter_transport_error (ncbi : remote)
    (pre : list string) (taxon_id : string) (post : list string)
    (ncbi_db : string) (w w1 : world) (names1 : list string) :
  get_taxonlist_species ncbi pre ncbi_db w = (w1, inr names1) →
  esummary_reply ncbi (log w1) ncbi_db taxon_id 10000%N = Raises HTTPError →
  get_taxonlist_species ncbi (pre ++ taxon_id :: post) ncbi_db w
  = (sent (summary_request ncbi_db taxon_id) w1, inl HTTPError).
Proof.
  intros Hpre Hreply.
  rewrite get_taxonlist_species_app, Hpre.
  rewrite get_taxonlist_species_cons, loop_body_eq. simpl.
  by rewrite Hreply.
Qed.

(** ** Hoare triples for heap computations *)

Lemma triple_ret {A} (P : heap → Prop) (a : A)
    (Q : A → heap → Prop) (E : exn → heap → Prop) :
  (∀ h, P h → Q a h) → triple P (ret a) Q E.
Proof. intros HQ h HP. by apply HQ. Qed.

Lemma triple_raise {A} (P : heap → Prop) (e : exn)
    (Q : A → heap → Prop) (E : exn → heap → Prop) :
  (∀ h, P h → E e h) → triple P (raise e) Q E.
Proof. intros HE h HP. by apply HE. Qed.

Lemma triple_bind {A B} (P : heap → Prop) (c : M heap A) (k : A → M heap B)
    (Q : A → heap → Prop) (R : B → heap → Prop) (E : exn → heap → Prop) :
  triple P c Q E → (∀ a, triple (Q a) (k a) R E) → triple P (bind c k) R E.
Proof.
  intros Hc Hk h HP. unfold bind. specialize (Hc h HP).
  destruct (c h) as [h' [e|a]]; [done|]. by apply Hk.
Qed.

Lemma triple_weaken {A} (P P' : heap → Prop) (c : M heap A)
    (Q Q' : A → heap → Prop) (E E' : exn → heap → Prop) :
  (∀ h, P' h → P h) → (∀ a h, Q a h → Q' a h) → (∀ e h, E e h → E' e h) →
  triple P c Q E → triple P' c Q' E'.
Proof.
  intros HP HQ HE Hc h HP'. specialize (Hc h (HP h HP')).
  destruct (c h) as [h' [e|a]]; auto.
Qed.

Lemma triple_pre {A} (P P' : heap → Prop) (c : M heap A)
    (Q : A → heap → Prop) (E : exn → heap → Prop) :
  (∀ h, P' h → P h) → triple P c Q E → triple P' c Q E.
Proof. intros HP. by apply triple_weaken. Qed.

(** ** The frame of [plot_bar] *)

Section Frame.
Variable group_order : list (cell * nat) → list (cell * nat).

(** The heap before the call. *)
Variable h0 : heap.

Lemma alloc_frame o :
  triple (keeps h0) (alloc o)
    (λ l h, keeps h0 h ∧ unknown h0 l) (λ _, keeps h0).
Proof.
  intros h Hsub. simpl.
  assert (h !! fresh (dom h) = None) as Hfresh
    by apply not_elem_of_dom, is_fresh.
  assert (unknown h0 (fresh (dom h))) as Hnew
    by (by eapply lookup_weaken_None).
  split; [|done]. by apply insert_subseteq_r.
Qed.

Lemma store_frame l o :
  triple (λ h, keeps h0 h ∧ unknown h0 l) (store l o)
    (λ _, keeps h0) (λ _, keeps h0).
Proof. intros h [Hsub Hl]. simpl. by apply insert_subseteq_r. Qed.

Lemma deref_frame (P : heap → Prop) l :
  (∀ h, P h → keeps h0 h) →
  triple P (deref l) (λ _, P) (λ _, keeps h0).
Proof.
  intros HP h Hh. unfold deref. destruct (h !! l); [done|]. by apply HP.
Qed.

Ltac frame_of_alloc :=
  eapply triple_bind; [by apply (deref_frame (keeps h0))|];
  intros o; repeat case_match;
  first [apply alloc_frame | by apply triple_raise].

Lemma group_by_len_frame df category :
  triple (keeps h0) (group_by_len group_order df category)
    (λ l h, keeps h0 h ∧ unknown h0 l) (λ _, keeps h0).
Proof. unfold group_by_len. frame_of_alloc. Qed.

Lemma to_pandas_frame df :
  triple (keeps h0) (to_pandas df)
    (λ l h, keeps h0 h ∧ unknown h0 l) (λ _, keeps h0).
Proof. unfold to_pandas. frame_of_alloc. Qed.

Lemma from_pandas_frame df :
  triple (keeps h0) (from_pandas df)
    (λ l h, keeps h0 h ∧ unknown h0 l) (λ _, keeps h0).
Proof. unfold from_pandas. frame_of_alloc. Qed.

Lemma filter_col_frame df category p :
  triple (keeps h0) (filter_col df category p)
    (λ l h, keeps h0 h ∧ unknown h0 l) (λ _, keeps h0).
Proof. unfold filter_col. frame_of_alloc. Qed.

(** The one update in place touches a frame that [h0] does not know. *)
Lemma set_categorical_frame df category sort_order :
  triple (λ h, keeps h0 h ∧ unknown h0 df)
    (set_categorical df category sort_order) (λ _, keeps h0) (λ _, keeps h0).
Proof.
  unfold set_categorical.
  eapply triple_bind; [apply deref_frame; by intros h [? _]|].
  intros o; repeat case_match;
    first [apply store_frame | apply triple_raise; by intros h [? _]].
Qed.

Lemma sum_len_frame df :
  triple (keeps h0) (sum_len df) (λ _, keeps h0) (λ _, keeps h0).
Proof.
  unfold sum_len.
  eapply triple_bind; [by apply (deref_frame (keeps h0))|].
  intros o; repeat case_match;
    first [by apply triple_ret | by apply triple_raise].
Qed.

Lemma plot_bar_frame df category sort_order title x_title legend_title
    filter_list :
  triple (keeps h0)
    (plot_bar group_order df category sort_order title x_title
       legend_title filter_list)
    (λ _, keeps h0) (λ _, keeps h0).
Proof.
  assert (∀ l h, keeps h0 h ∧ unknown h0 l → keeps h0 h) as Hfst
    by (intros l h [Hk _]; exact Hk).
  unfold plot_bar.
  eapply triple_bind; [apply group_by_len_frame|]. intros df1.
  eapply triple_bind.
  { eapply triple_pre; [apply Hfst|apply to_pandas_frame]. }
  intros df2.
  eapply triple_bind; [apply set_categorical_frame|]. intros [].
  eapply triple_bind; [apply from_pandas_frame|]. intros df3.
  eapply triple_bind.
  { eapply triple_pre; [apply Hfst|apply filter_col_frame]. }
  intros df4.
  eapply triple_bind with (Q := λ _, (keeps h0)).
  { destruct filter_list as [l|].
    - eapply triple_weaken; [| | |apply filter_col_frame];
        [apply Hfst | intros a; apply Hfst | done].
    - apply triple_ret. apply Hfst. }
  intros df5.
  eapply triple_bind with (Q := λ _, (keeps h0)); [by apply triple_ret|].
  intros ch.
  eapply triple_bind; [apply sum_len_frame|]. intros total.
  by apply triple_ret.
Qed.
End Frame.

(** C10. [plot_bar] never changes a frame that exists when it is called:
    whatever the outcome (a chart or an exception), every reference of the
    heap before the call, the argument [df] among them, holds the same
    frame after the call. *)
Theorem plot_bar_preserves_frames
    (group_order : list (cell * nat) → list (cell * nat))
    (df : loc) (category : string) (sort_order : list string)
    (title x_title legend_title : string)
    (filter_list : option (list string)) (h : heap) :
  let h' := (plot_bar group_order df category sort_order title x_title
               legend_title filter_list h).1 in
  h' !! df = h !! df ∧ ∀ l o, h !! l = Some o → h' !! l = Some o.
Proof.
  pose proof (plot_bar_frame group_order h df category sort_order title
                x_title legend_title filter_list h) as Hframe.
  assert (keeps h h) as Hrefl by (by unfold keeps).
  specialize (Hframe Hrefl). simpl.
  assert (∀ l o, h !! l = Some o →
            (plot_bar group_order df category sort_order title x_title
               legend_title filter_list h).1 !! l = Some o) as Hkeep.
  { destruct (plot_bar _ _ _ _ _ _ _ _ h) as [h' r]. simpl.
    assert (keeps h h') as Hsub by (by destruct r).
    intros l o Hl. by eapply lookup_weaken. }
  split; [|exact Hkeep].
  destruct (h !! df) as [o|] eqn:Hdf; [by apply Hkeep|].
  unfold plot_bar, group_by_len, deref. unfold bind. by rewrite Hdf.
Qed.

(** ** Counting the rows of a column *)

Lemma occurrences_pos (v : cell) (vals : list cell) :
  v ∈ vals ↔ 0 < occurrences v vals.
Proof.
  unfold occurrences. induction vals as [|x vals IH].
  - rewrite filter_nil, elem_of_nil. simpl. lia.
  - rewrite filter_cons, elem_of_cons.
    destruct (decide (x = v)) as [->|Hne]; simpl.
    + split; [lia|by left].
    + rewrite <- IH. split; [intros [?|?]; [congruence|done]|by right].
Qed.

Lemma elem_of_value_counts (vals : list cell) v n :
  (v, n) ∈ value_counts vals ↔ v ∈ vals ∧ n = occurrences v vals.
Proof.
  unfold value_counts. rewrite list_elem_of_fmap. split.
  - intros (k & [= -> ->] & Hk). split; [by apply elem_of_remove_dups|done].
  - intros [Hv ->]. exists v. split; [done|]. by apply elem_of_remove_dups.
Qed.

Lemma length_filter_split {A} (P Q R : A → Prop)
    `{!∀ x, Decision (P x), !∀ x, Decision (Q x), !∀ x, Decision (R x)}
    (l : list A) :
  (∀ x, P x ↔ Q x ∨ R x) → (∀ x, Q x → R x → False) →
  length (filter P l) = length (filter Q l) + length (filter R l).
Proof.
  intros Hor Hdisj. induction l as [|x l IH]; [done|].
  rewrite !filter_cons.
  destruct (decide (P x)) as [HP|HP], (decide (Q x)) as [HQ|HQ],
    (decide (R x)) as [HR|HR]; simpl; rewrite IH; try lia.
  - destruct (Hdisj x HQ HR).
  - apply Hor in HP as [?|?]; done.
  - destruct HP. apply Hor. by left.
  - destruct HP. apply Hor. by left.
  - destruct HP. apply Hor. by right.
Qed.

Lemma filter_none {A} (P : A → Prop) `{!∀ x, Decision (P x)} (l : list A) :
  (∀ x, x ∈ l → ¬ P x) → filter P l = [].
Proof.
  intros Hno. induction l as [|x l IH]; [done|].
  rewrite filter_cons, decide_False by (apply Hno; by left).
  apply IH. intros y Hy. apply Hno. by right.
Qed.

(** The counts of the groups selected by [p] add up to the number of rows
    of the column whose value is selected by [p]. *)
Lemma sum_counts_keys (p : cell → bool) (vals keys : list cell) :
  NoDup keys →
  sum_list (filter (λ r, p r.1) ((λ k, (k, occurrences k vals)) <$> keys)).*2
  = length (filter (λ v, p v ∧ v ∈ keys) vals).
Proof.
  induction 1 as [|k keys Hk Hnd IH].
  - rewrite (filter_none _ vals); [reflexivity|]. intros v _ [_ Hin].
    by apply elem_of_nil in Hin.
  - rewrite fmap_cons, filter_cons. simpl.
    rewrite (length_filter_split (λ v, p v ∧ v ∈ k :: keys)
               (λ v, p v ∧ v = k) (λ v, p v ∧ v ∈ keys)).
    + rewrite <- IH. destruct (decide (p k)) as [Hp|Hp]; simpl.
      * f_equal. unfold occurrences. apply (f_equal length).
        apply list_filter_iff. intros v. split; [|by intros [_ ?]].
        intros ->. done.
      * rewrite (filter_none _ vals); [done|]. intros v _ [Hpv ->]. done.
    + intros v. rewrite elem_of_cons. tauto.
    + intros v [_ ->] [_ Hin]. done.
Qed.

Lemma filter_iff_on {A} (P Q : A → Prop)
    `{!∀ x, Decision (P x), !∀ x, Decision (Q x)} (l : list A) :
  (∀ x, x ∈ l → P x ↔ Q x) → filter P l = filter Q l.
Proof.
  intros Hiff. induction l as [|x l IH]; [done|].
  rewrite !filter_cons, IH by (intros y Hy; apply Hiff; by right).
  apply decide_ext, Hiff. by left.
Qed.

Lemma sum_counts (p : cell → bool) (vals : list cell) :
  sum_list (filter (λ r, p r.1) (value_counts vals)).*2
  = length (filter (λ v, p v) vals).
Proof.
  unfold value_counts. rewrite sum_counts_keys by apply NoDup_remove_dups.
  apply (f_equal length), filter_iff_on. intros v Hv.
  rewrite elem_of_remove_dups. tauto.
Qed.

(** ** The rows of the chart *)

(** Re-typing the column as a categorical and dropping the nulls keeps
    the rows whose value is listed in [sort_order]. *)
Lemma categorical_not_null sort_order (rows : list (cell * nat)) :
  filter (λ r, is_not_null r.1)
    (zip (as_category sort_order <$> rows.*1) rows.*2)
  = filter (λ r, is_in sort_order r.1) rows.
Proof.
  induction rows as [|[v n] rows IH]; [done|].
  rewrite !fmap_cons. simpl zip. rewrite !filter_cons, IH. simpl.
  destruct v as [s|]; simpl; [|done].
  by destruct (bool_decide (s ∈ sort_order)).
Qed.

Lemma kept_spec sort_order filter_list (v : cell) :
  kept sort_order filter_list v
  ↔ ∃ s, v = Some s ∧ s ∈ sort_order
         ∧ ∀ l, filter_list = Some l → s ∈ l.
Proof.
  unfold kept, is_in. destruct v as [s|]; simpl.
  - rewrite andb_True, bool_decide_spec. split.
    + intros [Hso Hfl]. exists s. repeat split; [done|].
      intros l ->. by apply bool_decide_spec in Hfl.
    + intros (s' & [= <-] & Hso & Hfl). split; [done|].
      destruct filter_list as [l|]; [|done].
      apply bool_decide_spec. by apply Hfl.
  - split; [done|]. by intros (s & ? & _).
Qed.

(** The two filters of lines 82-84 together. *)
Lemma filters_kept sort_order filter_list (rows : list (cell * nat)) :
  match filter_list with
  | Some l => filter (λ r, is_in l r.1)
                (filter (λ r, is_in sort_order r.1) rows)
  | None => filter (λ r, is_in sort_order r.1) rows
  end = filter (λ r, kept sort_order filter_list r.1) rows.
Proof.
  destruct filter_list as [l|].
  - rewrite list_filter_filter. apply list_filter_iff. intros [v n].
    unfold kept. simpl. rewrite andb_True. split; intros [? ?]; by split.
  - apply list_filter_iff. intros [v n].
    unfold kept. simpl. rewrite andb_True. split; [by split|by intros [? _]].
Qed.

(** ** [plot_bar] on a dataset *)

Lemma triple_returns {A} (P : heap → Prop) (c : M heap A)
    (Q : A → heap → Prop) h :
  triple P c Q never → P h → ∃ h' a, c h = (h', inr a) ∧ Q a h'.
Proof.
  intros Hc HP. specialize (Hc h HP).
  destruct (c h) as [h' [e|a]]; [done|]. by exists h', a.
Qed.

Lemma alloc_spec (P : heap → Prop) o :
  triple P (alloc o) (λ l, holds l o) never.
Proof. intros h _. simpl. apply lookup_insert_eq. Qed.

Lemma deref_spec l o :
  triple (holds l o) (deref l) (λ o' h, o' = o ∧ holds l o h) never.
Proof. intros h Hl. unfold deref. by rewrite Hl. Qed.

Section Run.
Variable group_order : list (cell * nat) → list (cell * nat).

Lemma group_by_len_spec df category cols vals :
  cols !! category = Some vals → category ≠ "len" →
  triple (holds df {| lib := Polars; content := Columns cols |})
    (group_by_len group_order df category)
    (λ l, holds l {| lib := Polars;
                     content := Counts category Utf8
                                  (group_order (value_counts vals)) |})
    never.
Proof.
  intros Hcol Hlen. unfold group_by_len.
  eapply triple_bind; [apply deref_spec|]. intros o.
  intros h [-> Hdf]. revert h Hdf. rewrite Hcol.
  apply String.eqb_neq in Hlen. rewrite Hlen. apply alloc_spec.
Qed.

Lemma to_pandas_spec df t :
  triple (holds df {| lib := Polars; content := t |})
    (to_pandas df)
    (λ l, holds l {| lib := Pandas; content := t |}) never.
Proof.
  unfold to_pandas.
  eapply triple_bind; [apply deref_spec|]. intros o.
  intros h [-> Hdf]. revert h Hdf. apply alloc_spec.
Qed.

Lemma from_pandas_spec df t :
  triple (holds df {| lib := Pandas; content := t |})
    (from_pandas df)
    (λ l, holds l {| lib := Polars; content := t |}) never.
Proof.
  unfold from_pandas.
  eapply triple_bind; [apply deref_spec|]. intros o.
  intros h [-> Hdf]. revert h Hdf. apply alloc_spec.
Qed.

Lemma set_categorical_spec df category sort_order dt rows :
  NoDup sort_order →
  triple
    (holds df {| lib := Pandas; content := Counts category dt rows |})
    (set_categorical df category sort_order)
    (λ _, holds df
            {| lib := Pandas;
               content := Counts category (Categorical sort_order)
                            (zip (as_category sort_order <$> rows.*1)
                               rows.*2) |})
    never.
Proof.
  intros Hnd. unfold set_categorical.
  eapply triple_bind; [apply deref_spec|]. intros o.
  intros h [-> Hdf]. rewrite String.eqb_refl. unfold pd_Categorical.
  rewrite bool_decide_eq_true_2 by done. simpl. apply lookup_insert_eq.
Qed.

Lemma filter_col_spec df category dt rows p :
  triple
    (holds df {| lib := Polars; content := Counts category dt rows |})
    (filter_col df category p)
    (λ l, holds l {| lib := Polars;
                     content := Counts category dt
                                  (filter (λ r, p r.1) rows) |})
    never.
Proof.
  unfold filter_col.
  eapply triple_bind; [apply deref_spec|]. intros o.
  intros h [-> Hdf]. revert h Hdf. rewrite String.eqb_refl.
  apply alloc_spec.
Qed.

Lemma sum_len_spec df key dt rows :
  triple
    (holds df {| lib := Polars; content := Counts key dt rows |})
    (sum_len df)
    (λ n h, n = sum_list rows.*2
            ∧ holds df {| lib := Polars; content := Counts key dt rows |} h)
    never.
Proof.
  unfold sum_len.
  eapply triple_bind; [apply deref_spec|]. intros o.
  intros h [-> Hdf]. by simpl.
Qed.
Lemma triple_bind_ret {A B} (P : heap → Prop) (a : A) (k : A → M heap B)
    (R : B → heap → Prop) (E : exn → heap → Prop) :
  triple P (k a) R E → triple P (bind (ret a) k) R E.
Proof. intros Hk h HP. exact (Hk h HP). Qed.

(** On a polars dataset with the column [category], [plot_bar] returns
    a chart; the frame that the chart draws holds the groups of the
    column that are [kept], and the x-axis title shows their total. *)
Lemma plot_bar_spec df category sort_order title x_title legend_title
    filter_list cols vals :
  cols !! category = Some vals → category ≠ "len" → NoDup sort_order →
  let rows := filter (λ r, kept sort_order filter_list r.1)
                (group_order (value_counts vals)) in
  triple (holds df {| lib := Polars; content := Columns cols |})
    (plot_bar group_order df category sort_order title x_title
       legend_title filter_list)
    (λ ch h,
       holds (chart_data ch)
         {| lib := Polars;
            content := Counts category (Categorical sort_order) rows |} h
       ∧ ch = {| chart_data := chart_data ch;
                 chart_mark := "bar";
                 encoding_x_field := "len";
                 encoding_x_stack := "normalize";
                 encoding_x_title := Some (x_title +:+ ", N="
                                  +:+ int_to_str (sum_list rows.*2));
                 encoding_color_field := category;
                 encoding_color_sort := sort_order;
                 encoding_color_scheme := "tableau20";
                 encoding_color_legend := legend_title;
                 encoding_order_field := "color_" +:+ category +:+ "_sort_index:O";
                 properties_title := title |})
    never.
Proof.
  intros Hcol Hlen Hnd rows. unfold plot_bar.
  eapply triple_bind; [by apply group_by_len_spec|]. intros df1.
  eapply triple_bind; [apply to_pandas_spec|]. intros df2.
  eapply triple_bind; [by apply set_categorical_spec|]. intros [].
  eapply triple_bind; [apply from_pandas_spec|]. intros df3.
  eapply triple_bind; [apply filter_col_spec|]. intros df4.
  rewrite categorical_not_null.
  eapply triple_bind
    with (Q := λ l, holds l {| lib := Polars;
                               content := Counts category
                                            (Categorical sort_order) rows |}).
  { unfold rows. rewrite <- filters_kept.
    destruct filter_list as [l|]; [apply filter_col_spec|].
    by apply triple_ret. }
  intros df5. unfold plot_bar_of. apply triple_bind_ret.
  eapply triple_bind; [apply sum_len_spec|]. intros total.
  apply triple_ret. by intros h [-> Hh].
Qed.
End Run.

(** C3. On a polars dataset that has the column [category] (with
    [sort_order] free of duplicates), [plot_bar] returns a chart, and the
    frame that the chart draws has exactly one row per value [s] of the
    column that is listed in [sort_order] (and in the filter, when one is
    given), with its number of occurrences: the null group and the groups
    of the values that [sort_order] does not list are dropped, whether or
    not a filter is given. *)
Theorem plot_bar_drops_unlisted
    (group_order : list (cell * nat) → list (cell * nat))
    (df : loc) (category : string) (sort_order : list string)
    (title x_title legend_title : string)
    (filter_list : option (list string)) (h : heap)
    (cols : gmap string (list cell)) (vals : list cell) :
  (∀ l, group_order l ≡ₚ l) →
  h !! df = Some {| lib := Polars; content := Columns cols |} →
  cols !! category = Some vals →
  category ≠ "len" →
  NoDup sort_order →
  ∃ h' ch dt rows,
    plot_bar group_order df category sort_order title x_title legend_title
      filter_list h = (h', inr ch)
    ∧ h' !! chart_data ch
      = Some {| lib := Polars; content := Counts category dt rows |}
    ∧ ∀ v n,
        (v, n) ∈ rows
        ↔ ∃ s, v = Some s
               ∧ s ∈ sort_order
               ∧ (∀ l, filter_list = Some l → s ∈ l)
               ∧ Some s ∈ vals
               ∧ n = occurrences (Some s) vals.
Proof.
  intros Hperm Hdf Hcol Hlen Hnd.
  destruct (triple_returns _ _ _ h
              (plot_bar_spec group_order df category sort_order title x_title
                 legend_title filter_list cols vals Hcol Hlen Hnd) Hdf)
    as (h' & ch & Hrun & Hdata & _).
  exists h', ch, (Categorical sort_order). eexists.
  split; [exact Hrun|]. split; [exact Hdata|].
  intros v n. rewrite list_elem_of_filter, (Hperm _), elem_of_value_counts.
  simpl. rewrite kept_spec. split.
  - intros ((s & -> & Hso & Hfl) & Hin & ->). by exists s.
  - intros (s & -> & Hso & Hfl & Hin & ->). split; [by exists s|done].
Qed.

(** C4. On such a dataset the x-axis title of the chart is
    ["{x_title}, N={total}"], where [total] is the sum of the counts of the
    rows that the chart draws; this sum is the number of rows of the
    dataset whose value of the column is listed in [sort_order] and, when
    a filter is given, in the filter. *)
Theorem plot_bar_x_title
    (group_order : list (cell * nat) → list (cell * nat))
    (df : loc) (category : string) (sort_order : list string)
    (title x_title legend_title : string)
    (filter_list : option (list string)) (h : heap)
    (cols : gmap string (list cell)) (vals : list cell) :
  (∀ l, group_order l ≡ₚ l) →
  h !! df = Some {| lib := Polars; content := Columns cols |} →
  cols !! category = Some vals →
  category ≠ "len" →
  NoDup sort_order →
  ∃ h' ch dt rows,
    plot_bar group_order df category sort_order title x_title legend_title
      filter_list h = (h', inr ch)
    ∧ h' !! chart_data ch
      = Some {| lib := Polars; content := Counts category dt rows |}
    ∧ encoding_x_title ch
      = Some (x_title +:+ ", N=" +:+ int_to_str (sum_list rows.*2))
    ∧ sum_list rows.*2
      = length (filter (λ v, kept sort_order filter_list v) vals).
Proof.
  intros Hperm Hdf Hcol Hlen Hnd.
  destruct (triple_returns _ _ _ h
              (plot_bar_spec group_order df category sort_order title x_title
                 legend_title filter_list cols vals Hcol Hlen Hnd) Hdf)
    as (h' & ch & Hrun & Hdata & Hch).
  exists h', ch, (Categorical sort_order). eexists.
  split; [exact Hrun|]. split; [exact Hdata|]. split.
  - by rewrite Hch.
  - rewrite (Hperm _). apply sum_counts.
Qed.

(** ** The examples of the specification *)

Lemma first_seen_perm rows : first_seen rows ≡ₚ rows.
Proof. reflexivity. Qed.

Lemma example_ncbi_stable : stable example_ncbi.
Proof. intros log1 log2 db id retmax. reflexivity. Qed.

Lemma get_taxon_id_soft_failure_witness :
  get_taxon_id example_ncbi "Elodea" default_db default_idtype new_world
  = (sent (ESearch default_db "Elodea[orgn]" 10000%N) new_world,
     inr (PStr "Database error, try later...")).
Proof.
  apply (get_taxon_id_soft_failure example_ncbi "Elodea" default_db
           default_idtype new_world).
  reflexivity.
Defined.

Lemma get_taxon_id_success_witness :
  get_taxon_id example_ncbi "Lemna" default_db default_idtype new_world
  = (sent (ESearch default_db "Lemna[orgn]" 10000%N) new_world,
     inr (PList ["4471"; "4472"]))
  ∧ (get_taxon_id example_ncbi "Lemna" default_db default_idtype
       new_world).2 ≠ inr (PStr sentinel).
Proof.
  apply (get_taxon_id_success example_ncbi "Lemna" default_db default_idtype
           new_world
           {[ "Count" := PStr "2"; "IdList" := PList ["4471"; "4472"] ]}).
  - reflexivity.
  - reflexivity.
Defined.

(** The example of the specification: of [A; B; C] the names of [B] and
    [C] are returned, in this order. *)
Lemma rank_filter_selects_witness :
  ∃ w', get_taxonlist_species example_ncbi ["A"; "B"; "C"] default_db
          new_world
        = (w', inr ["Lemna"; "Lemna minor"])
        ∧ log w' = [] ++ (summary_request default_db <$> ["A"; "B"; "C"]).
Proof.
  apply (rank_filter_selects example_ncbi ["A"; "B"; "C"] default_db
           new_world).
  repeat constructor; eexists; reflexivity.
Defined.

Lemma rank_filter_bounded_witness :
  length ["Lemna"; "Lemna minor"] ≤ length ["A"; "B"; "C"]
  ∧ ∀ name, name ∈ ["Lemna"; "Lemna minor"] →
      ∃ i id r rest,
        ["A"; "B"; "C"] !! i = Some id
        ∧ esummary_reply example_ncbi
            (log new_world
             ++ (summary_request default_db <$> take i ["A"; "B"; "C"]))
            default_db id 10000%N = Parsed (r :: rest)
        ∧ qualifying r
        ∧ r !! "ScientificName" = Some name.
Proof.
  apply (rank_filter_bounded example_ncbi ["A"; "B"; "C"] default_db
           new_world
           {| log := summary_request default_db <$> ["A"; "B"; "C"];
              stdout := [] |}).
  reflexivity.
Defined.

Lemma rank_filter_idempotent_witness :
  (get_taxonlist_species example_ncbi ["A"; "0"; "C"] default_db
     (get_taxonlist_species example_ncbi ["A"; "0"; "C"] default_db
        new_world).1).2
  = (get_taxonlist_species example_ncbi ["A"; "0"; "C"] default_db
       new_world).2.
Proof.
  apply (rank_filter_idempotent example_ncbi ["A"; "0"; "C"] default_db
           new_world).
  apply example_ncbi_stable.
Defined.

Lemma rank_filter_skips_empty_witness :
  get_taxonlist_species example_ncbi (["B"] ++ "0" :: ["C"]) default_db
    new_world
  = prepend ["Lemna"]
      (get_taxonlist_species example_ncbi ["C"] default_db
         (printed "New Error. Nemas Problemas!"
            (sent (summary_request default_db "0")
               {| log := [summary_request default_db "B"];
                  stdout := [] |})))
  ∧ "New Error. Nemas Problemas!"
    ∈ stdout (get_taxonlist_species example_ncbi (["B"] ++ "0" :: ["C"])
                default_db new_world).1.
Proof.
  apply (rank_filter_skips_empty example_ncbi ["B"] "0" ["C"] default_db
           new_world).
  - reflexivity.
  - reflexivity.
Defined.

Lemma rank_filter_transport_error_witness :
  get_taxonlist_species example_ncbi (["B"] ++ "X" :: ["C"]) default_db
    new_world
  = (sent (summary_request default_db "X")
       {| log := [summary_request default_db "B"]; stdout := [] |},
     inl HTTPError).
Proof.
  apply (rank_filter_transport_error example_ncbi ["B"] "X" ["C"] default_db
           new_world _ ["Lemna"]).
  - reflexivity.
  - reflexivity.
Defined.

(** The names after an empty answer are returned, and the diagnostic is
    printed once. *)
Example rank_filter_example_skip :
  get_taxonlist_species example_ncbi ["B"; "0"; "C"] default_db new_world
  = ({| log := summary_request default_db <$> ["B"; "0"; "C"];
        stdout := ["New Error. Nemas Problemas!"] |},
     inr ["Lemna"; "Lemna minor"]).
Proof. reflexivity. Qed.

Lemma plot_bar_drops_unlisted_witness :
  ∃ h' ch dt rows,
    plot_bar first_seen 1%positive "kind" ["x"; "y"] "Kinds" "Share" "Kind"
      None example_heap = (h', inr ch)
    ∧ h' !! chart_data ch
      = Some {| lib := Polars; content := Counts "kind" dt rows |}
    ∧ ∀ v n,
        (v, n) ∈ rows
        ↔ ∃ s, v = Some s
               ∧ s ∈ ["x"; "y"]
               ∧ (∀ l : list string, None = Some l → s ∈ l)
               ∧ Some s ∈ example_column
               ∧ n = occurrences (Some s) example_column.
Proof.
  apply (plot_bar_drops_unlisted first_seen 1%positive "kind" ["x"; "y"]
           "Kinds" "Share" "Kind" None example_heap
           {[ "kind" := example_column ]} example_column).
  - apply first_seen_perm.
  - reflexivity.
  - reflexivity.
  - discriminate.
  - apply (bool_decide_unpack (NoDup ["x"; "y"])). vm_compute. exact I.
Defined.

Lemma plot_bar_x_title_witness :
  ∃ h' ch dt rows,
    plot_bar first_seen 1%positive "kind" ["x"; "y"] "Kinds" "Share" "Kind"
      (Some ["x"]) example_heap = (h', inr ch)
    ∧ h' !! chart_data ch
      = Some {| lib := Polars; content := Counts "kind" dt rows |}
    ∧ encoding_x_title ch
      = Some ("Share" +:+ ", N=" +:+ int_to_str (sum_list rows.*2))
    ∧ sum_list rows.*2
      = length (filter (λ v, kept ["x"; "y"] (Some ["x"]) v) example_column).
Proof.
  apply (plot_bar_x_title first_seen 1%positive "kind" ["x"; "y"]
           "Kinds" "Share" "Kind" (Some ["x"]) example_heap
           {[ "kind" := example_column ]} example_column).
  - apply first_seen_perm.
  - reflexivity.
  - reflexivity.
  - discriminate.
  - apply (bool_decide_unpack (NoDup ["x"; "y"])). vm_compute. exact I.
Defined.

(** The examples of the specification, computed: the aggregate drawn has
    the groups x and y only, and N is their total; with the filter [x], the
    group x only. *)
Example plot_bar_example :
  let run := plot_bar first_seen 1%positive "kind" ["x"; "y"] "Kinds" "Share"
               "Kind" None example_heap in
  ∃ ch, run.2 = inr ch
        ∧ run.1 !! chart_data ch
          = Some {| lib := Polars;
                    content := Counts "kind" (Categorical ["x"; "y"])
                                 [(Some "x", 2); (Some "y", 1)] |}
        ∧ encoding_x_title ch = Some "Share, N=3".
Proof. vm_compute. eexists. split; [reflexivity|]. split; reflexivity. Qed.

Example plot_bar_example_filter :
  let run := plot_bar first_seen 1%positive "kind" ["x"; "y"] "Kinds" "Share"
               "Kind" (Some ["x"]) example_heap in
  ∃ ch, run.2 = inr ch
        ∧ run.1 !! chart_data ch
          = Some {| lib := Polars;
                    content := Counts "kind" (Categorical ["x"; "y"])
                                 [(Some "x", 2)] |}
        ∧ encoding_x_title ch = Some "Share, N=2".
Proof. vm_compute. eexists. split; [reflexivity|]. split; reflexivity. Qed.

(** * Further properties *)

(** ** [get_taxon_id]: calls, exceptions, results *)

(** X1. Whatever the service answers, [get_taxon_id] calls Bio.Entrez
    exactly once, [Entrez.esearch] for the term ["{taxon_name}[orgn]"] with
    [retmax] 10000 on the given database, and prints nothing.  This counts
    the calls that the function makes, not the HTTP requests that the
    library sends for a call. *)
Theorem get_taxon_id_one_request (ncbi : remote)
    (taxon_name ncbi_db ncbi_idtype : string) (w : world) :
  (get_taxon_id ncbi taxon_name ncbi_db ncbi_idtype w).1
  = sent (ESearch ncbi_db (taxon_name +:+ "[orgn]") 10000%N) w.
Proof.
  unfold get_taxon_id, try_except_else, bind, Entrez_esearch, Entrez_read.
  simpl.
  destruct (esearch_reply ncbi (log w) ncbi_db _ _) as [e|record]; simpl.
  - by destruct e.
  - unfold getitem. by destruct (record !! "IdList").
Qed.

(** X2. When [get_taxon_id] raises, the exception is never [HTTPError]:
    it is the exception of the search itself, or [KeyError "IdList"] for a
    parsed answer without that field. *)
Theorem get_taxon_id_raises (ncbi : remote)
    (taxon_name ncbi_db ncbi_idtype : string) (w w' : world) (e : exn) :
  get_taxon_id ncbi taxon_name ncbi_db ncbi_idtype w = (w', inl e) →
  e ≠ HTTPError
  ∧ (esearch_reply ncbi (log w) ncbi_db (taxon_name +:+ "[orgn]") 10000%N
     = Raises e
     ∨ ∃ record,
         esearch_reply ncbi (log w) ncbi_db (taxon_name +:+ "[orgn]") 10000%N
         = Parsed record
         ∧ record !! "IdList" = None ∧ e = KeyError "IdList").
Proof.
  unfold get_taxon_id, try_except_else, bind, Entrez_esearch, Entrez_read.
  simpl.
  destruct (esearch_reply ncbi (log w) ncbi_db _ _) as [e'|record]; simpl.
  - destruct e'; intros [= <- <-]; (split; [done|by left]).
  - unfold getitem. destruct (record !! "IdList") as [v|] eqn:Hv; [done|].
    intros [= <- <-]. split; [done|]. right. by exists record.
Qed.

(** X3. A parsed answer without the field ["IdList"] makes [get_taxon_id]
    raise [KeyError "IdList"]: the lookup is in the [else] clause, which no
    handler covers. *)
Theorem get_taxon_id_missing_idlist (ncbi : remote)
    (taxon_name ncbi_db ncbi_idtype : string) (w : world)
    (record : gmap string pyval) :
  esearch_reply ncbi (log w) ncbi_db (taxon_name +:+ "[orgn]") 10000%N
    = Parsed record →
  record !! "IdList" = None →
  get_taxon_id ncbi taxon_name ncbi_db ncbi_idtype w
  = (sent (ESearch ncbi_db (taxon_name +:+ "[orgn]") 10000%N) w,
     inl (KeyError "IdList")).
Proof.
  intros Hreply Hids.
  unfold get_taxon_id, try_except_else, bind, Entrez_esearch, Entrez_read.
  simpl. rewrite Hreply. simpl. unfold getitem. by rewrite Hids.
Qed.

(** X4. What [get_taxon_id] returns is the sentinel string after an
    [HTTPError], and otherwise the value of the field ["IdList"] of the
    parsed answer, whatever that value is. *)
Theorem get_taxon_id_returns (ncbi : remote)
    (taxon_name ncbi_db ncbi_idtype : string) (w w' : world) (v : pyval) :
  get_taxon_id ncbi taxon_name ncbi_db ncbi_idtype w = (w', inr v) →
  (esearch_reply ncbi (log w) ncbi_db (taxon_name +:+ "[orgn]") 10000%N
   = Raises HTTPError
   ∧ v = PStr "Database error, try later...")
  ∨ ∃ record,
      esearch_reply ncbi (log w) ncbi_db (taxon_name +:+ "[orgn]") 10000%N
      = Parsed record
      ∧ record !! "IdList" = Some v.
Proof.
  unfold get_taxon_id, try_except_else, bind, Entrez_esearch, Entrez_read.
  simpl.
  destruct (esearch_reply ncbi (log w) ncbi_db _ _) as [e'|record]; simpl.
  - destruct e'; try done. intros [= <- <-]. by left.
  - unfold getitem. destruct (record !! "IdList") as [v'|] eqn:Hv; [|done].
    intros [= <- <-]. right. by exists record.
Qed.

(** X5. The argument [ncbi_idtype] has no effect: it is not passed on to
    the search. *)
Theorem get_taxon_id_ignores_idtype (ncbi : remote)
    (taxon_name ncbi_db idtype1 idtype2 : string) (w : world) :
  get_taxon_id ncbi taxon_name ncbi_db idtype1 w
  = get_taxon_id ncbi taxon_name ncbi_db idtype2 w.
Proof. reflexivity. Qed.

(** ** [get_taxonlist_species]: exceptions, calls, output *)

Lemma rank_outcome_raises (r : summary) e :
  rank_outcome r = inl e →
  (e = KeyError "Rank" ∧ r !! "Rank" = None)
  ∨ (e = KeyError "Genus"
     ∧ r !! "Rank" = Some "species" ∧ r !! "Genus" = None).
Proof.
  unfold rank_outcome. destruct (r !! "Rank") as [rk|] eqn:Hrk.
  - destruct (String.eqb_spec rk "species") as [->|Hsp]; [|done].
    destruct (r !! "Genus"); [done|]. intros [= <-]. by right.
  - intros [= <-]. by left.
Qed.

Lemma rank_outcome_alike (r1 r2 : summary) :
  alike_records r1 r2 → rank_outcome r1 = rank_outcome r2.
Proof.
  intros (Hrk & Hg & _).
  assert (bool_decide (qualifying r1) = bool_decide (qualifying r2)) as Hq.
  { apply bool_decide_ext. unfold qualifying. by rewrite Hrk, Hg. }
  unfold rank_outcome. by rewrite Hrk, Hg, Hq.
Qed.

Section EntrezMore.
Variable ncbi : remote.

(** When the body raises, the answer is a [failure], and the request has
    been sent. *)
Lemma loop_body_raises db id acc w w1 e :
  loop_body ncbi db id acc w = (w1, inl e) →
  failure (esummary_reply ncbi (log w) db id 10000%N) e
  ∧ w1 = sent (summary_request db id) w.
Proof.
  rewrite loop_body_eq. simpl.
  destruct (esummary_reply ncbi (log w) db id 10000%N) as [e'|[|r rs]];
    simpl.
  - destruct e'; try done; by intros [= <- <-].
  - done.
  - destruct (rank_outcome r) as [e'|b] eqn:Hb.
    + intros [= <- <-]. split; [|done].
      apply rank_outcome_raises in Hb as [[-> ?]|(-> & ? & ?)];
        [by left|right; by left].
    + apply rank_outcome_returns in Hb as ->.
      destruct (decide (qualifying r)) as [Hq|Hq].
      * rewrite bool_decide_eq_true_2 by done.
        destruct (r !! "ScientificName") eqn:Hn; [done|].
        intros [= <- <-]. split; [|done]. right. by right.
      * by rewrite bool_decide_eq_false_2 by done.
Qed.

(** When the body returns, it has printed the diagnostic exactly for an
    answer without a first record, and then it has appended nothing. *)
Lemma loop_body_returns_stdout db id w w1 l :
  loop_body ncbi db id [] w = (w1, inr l) →
  stdout w1
  = stdout w ++ (if empty_answer (esummary_reply ncbi (log w) db id 10000%N)
                 then [diagnostic] else [])
  ∧ length l
    + (if empty_answer (esummary_reply ncbi (log w) db id 10000%N)
       then 1 else 0) ≤ 1.
Proof.
  rewrite loop_body_eq. simpl.
  destruct (esummary_reply ncbi (log w) db id 10000%N) as [e'|[|r rs]];
    simpl.
  - destruct e'; try done. by intros [= <- <-].
  - by intros [= <- <-].
  - destruct (rank_outcome r) as [e'|[|]]; [done| |].
    + destruct (r !! "ScientificName"); [|done].
      intros [= <- <-]. simpl. by rewrite app_nil_r.
    + intros [= <- <-]. simpl. split; [by rewrite app_nil_r|lia].
Qed.

(** The run raises at the first identifier whose answer is a failure,
    right after the request for it. *)
Lemma get_taxonlist_species_raises ids db w w' e :
  get_taxonlist_species ncbi ids db w = (w', inl e) →
  ∃ i id,
    ids !! i = Some id
    ∧ failure (esummary_reply ncbi
                 (log w ++ (summary_request db <$> take i ids)) db id
                 10000%N) e
    ∧ log w' = log w ++ (summary_request db <$> take (S i) ids).
Proof.
  revert w. induction ids as [|id ids IH]; intros w; [done|].
  rewrite get_taxonlist_species_cons.
  destruct (loop_body ncbi db id [] w) as [w1 [e'|l]] eqn:Hbody.
  - intros [= <- <-]. apply loop_body_raises in Hbody as [Hfail ->].
    exists 0, id. simpl. by rewrite app_nil_r.
  - apply loop_body_returns in Hbody as [_ Hlog].
    destruct (get_taxonlist_species ncbi ids db w1) as [w2 [e'|l']] eqn:Hrun;
      simpl; [|done].
    intros [= <- <-]. destruct (IH _ Hrun) as (i & id' & Hid & Hfail & Hw).
    exists (S i), id'. rewrite Hlog, <- !app_assoc in *. by simpl.
Qed.
End EntrezMore.

(** X6. When [get_taxonlist_species] raises, the exception is never an
    [IndexError]; it comes from one identifier of the input, whose fetch
    raised it or whose first record lacks a field that the test reads
    (Rank; Genus for a species; ScientificName for a qualifying
    record). *)
Theorem rank_filter_raises (ncbi : remote) (taxonlist : list string)
    (ncbi_db : string) (w w' : world) (e : exn) :
  get_taxonlist_species ncbi taxonlist ncbi_db w = (w', inl e) →
  e ≠ IndexError
  ∧ ∃ i id,
      taxonlist !! i = Some id
      ∧ failure (esummary_reply ncbi
                   (log w ++ (summary_request ncbi_db <$> take i taxonlist))
                   ncbi_db id 10000%N) e.
Proof.
  intros Hrun.
  apply get_taxonlist_species_raises in Hrun as (i & id & Hid & Hfail & _).
  split; [|by exists i, id].
  unfold failure in Hfail.
  destruct (esummary_reply _ _ _ _ _) as [e'|[|r rs]]; [|done|].
  - by destruct Hfail.
  - by destruct Hfail as [[-> _]|[(-> & _)|(-> & _)]].
Qed.

(** X7. Whatever the outcome, the calls that [get_taxonlist_species]
    makes to Bio.Entrez are calls of [Entrez.esummary], with [retmax] 10000,
    for the first [n] identifiers of the input, one call each and in the
    order of the input (no batching); [n] is the whole input when the
    function returns.  This counts the calls that the function makes, not
    the HTTP requests that the library sends for a call. *)
Theorem rank_filter_requests (ncbi : remote) (taxonlist : list string)
    (ncbi_db : string) (w : world) :
  ∃ n, n ≤ length taxonlist
       ∧ log (get_taxonlist_species ncbi taxonlist ncbi_db w).1
         = log w ++ ((λ id, ESummary ncbi_db id 10000%N) <$> take n taxonlist)
       ∧ (∀ names,
            (get_taxonlist_species ncbi taxonlist ncbi_db w).2 = inr names →
            n = length taxonlist).
Proof.
  destruct (get_taxonlist_species ncbi taxonlist ncbi_db w)
    as [w' [e|names]] eqn:Hrun; simpl.
  - apply get_taxonlist_species_raises in Hrun as (i & id & Hid & _ & Hlog).
    exists (S i). split; [|split; [exact Hlog|done]].
    by apply lookup_lt_Some in Hid.
  - apply get_taxonlist_species_returns in Hrun as [_ Hlog].
    exists (length taxonlist). rewrite firstn_all. by repeat split.
Qed.

(** X8. On a run that returns, the diagnostic has been printed once for
    each identifier whose answer has no first record, and nothing else has
    been printed; these identifiers and the names returned together are
    no more than the input. *)
Theorem rank_filter_diagnostics (ncbi : remote) (taxonlist : list string)
    (ncbi_db : string) (w w' : world) (names : list string) :
  get_taxonlist_species ncbi taxonlist ncbi_db w = (w', inr names) →
  let skipped := length (filter (λ rp, empty_answer rp)
                           (replies ncbi ncbi_db (log w) taxonlist)) in
  stdout w' = stdout w ++ replicate skipped "New Error. Nemas Problemas!"
  ∧ length names + skipped ≤ length taxonlist.
Proof.
  revert w w' names. induction taxonlist as [|id ids IH]; intros w w' names.
  - intros [= <- <-]. simpl. by rewrite app_nil_r.
  - rewrite get_taxonlist_species_cons.
    destruct (loop_body ncbi ncbi_db id [] w) as [w1 [e|l]] eqn:Hbody;
      [done|].
    destruct (loop_body_returns_stdout ncbi _ _ _ _ _ Hbody) as [Hout Hlen].
    apply loop_body_returns in Hbody as [_ Hlog].
    destruct (get_taxonlist_species ncbi ids ncbi_db w1) as [w2 [e|l']]
      eqn:Hrun; simpl; [done|].
    intros [= <- <-]. apply IH in Hrun as [Hout' Hlen'].
    rewrite Hlog in Hout', Hlen'. rewrite filter_cons.
    destruct (empty_answer (esummary_reply ncbi (log w) ncbi_db id 10000%N));
      simpl.
    + split.
      * by rewrite Hout', Hout, <- app_assoc.
      * rewrite length_app. lia.
    + split.
      * by rewrite Hout', Hout, app_nil_r.
      * rewrite length_app. lia.
Qed.

(** X9. Runs compose: when the function returns on [pre] and then, in the
    world left by that run, on [post], it returns on [pre ++ post] the two
    lists of names one after the other, in the same final world. *)
Theorem rank_filter_app (ncbi : remote) (pre post : list string)
    (ncbi_db : string) (w w1 w2 : world) (names1 names2 : list string) :
  get_taxonlist_species ncbi pre ncbi_db w = (w1, inr names1) →
  get_taxonlist_species ncbi post ncbi_db w1 = (w2, inr names2) →
  get_taxonlist_species ncbi (pre ++ post) ncbi_db w
  = (w2, inr (names1 ++ names2)).
Proof.
  intros Hpre Hpost. by rewrite get_taxonlist_species_app, Hpre, Hpost.
Qed.

(** X10. Only the first record of an answer is read, and of this record
    only the fields Rank, Genus and ScientificName: two services whose
    answers are alike in this respect give the same run. *)
Theorem rank_filter_reads_first_record (ncbi1 ncbi2 : remote)
    (taxonlist : list string) (ncbi_db : string) (w : world) :
  (∀ log0 db id retmax,
     alike (esummary_reply ncbi1 log0 db id retmax)
       (esummary_reply ncbi2 log0 db id retmax)) →
  get_taxonlist_species ncbi1 taxonlist ncbi_db w
  = get_taxonlist_species ncbi2 taxonlist ncbi_db w.
Proof.
  intros Halike. revert w.
  induction taxonlist as [|id ids IH]; intros w; [done|].
  rewrite !get_taxonlist_species_cons.
  assert (loop_body ncbi1 ncbi_db id [] w = loop_body ncbi2 ncbi_db id [] w)
    as ->.
  { rewrite !loop_body_eq. simpl.
    specialize (Halike (log w) ncbi_db id 10000%N). unfold alike in Halike.
    destruct (esummary_reply ncbi1 (log w) ncbi_db id 10000%N)
      as [e1|[|r1 rs1]],
      (esummary_reply ncbi2 (log w) ncbi_db id 10000%N)
      as [e2|[|r2 rs2]]; try done.
    - by subst.
    - rewrite (rank_outcome_alike r1 r2 Halike).
      destruct Halike as (_ & _ & ->). done. }
  destruct (loop_body ncbi2 ncbi_db id [] w) as [w1 [e|l]]; [done|].
  by rewrite IH.
Qed.

(** X11. A species record without the field Genus ends the run with
    [KeyError "Genus"]: the test is in the [else] clause, outside the
    handler, and the names collected before are not returned. *)
Theorem rank_filter_species_without_genus (ncbi : remote)
    (pre : list string) (taxon_id : string) (post : list string)
    (ncbi_db : string) (w w1 : world) (names1 : list string)
    (r : summary) (rest : list summary) :
  get_taxonlist_species ncbi pre ncbi_db w = (w1, inr names1) →
  esummary_reply ncbi (log w1) ncbi_db taxon_id 10000%N
    = Parsed (r :: rest) →
  r !! "Rank" = Some "species" →
  r !! "Genus" = None →
  get_taxonlist_species ncbi (pre ++ taxon_id :: post) ncbi_db w
  = (sent (summary_request ncbi_db taxon_id) w1, inl (KeyError "Genus")).
Proof.
  intros Hpre Hreply Hrk Hg.
  rewrite get_taxonlist_species_app, Hpre.
  rewrite get_taxonlist_species_cons, loop_body_eq. simpl.
  rewrite Hreply. unfold rank_outcome. by rewrite Hrk, Hg.
Qed.

(** X12. A genus record is appended whatever its field Genus, even when
    the field is missing: Genus is only read for a species. *)
Theorem rank_filter_genus_needs_no_genus (ncbi : remote)
    (pre : list string) (taxon_id : string) (post : list string)
    (ncbi_db : string) (w w1 : world) (names1 : list string)
    (r : summary) (rest : list summary) (name : string) :
  get_taxonlist_species ncbi pre ncbi_db w = (w1, inr names1) →
  esummary_reply ncbi (log w1) ncbi_db taxon_id 10000%N
    = Parsed (r :: rest) →
  r !! "Rank" = Some "genus" →
  r !! "ScientificName" = Some name →
  get_taxonlist_species ncbi (pre ++ taxon_id :: post) ncbi_db w
  = prepend (names1 ++ [name])
      (get_taxonlist_species ncbi post ncbi_db
         (sent (summary_request ncbi_db taxon_id) w1)).
Proof.
  intros Hpre Hreply Hrk Hn.
  rewrite get_taxonlist_species_app, Hpre.
  rewrite get_taxonlist_species_cons, loop_body_eq. simpl.
  rewrite Hreply. unfold rank_outcome. rewrite Hrk. simpl.
  rewrite bool_decide_eq_true_2 by (by right). rewrite Hn. simpl.
  by rewrite prepend_prepend.
Qed.

(** X13. A record of any other rank than species and genus is skipped
    without a diagnostic, whatever its other fields: neither Genus nor
    ScientificName is read. *)
Theorem rank_filter_other_rank (ncbi : remote)
    (pre : list string) (taxon_id : string) (post : list string)
    (ncbi_db : string) (w w1 : world) (names1 : list string)
    (r : summary) (rest : list summary) (rank : string) :
  get_taxonlist_species ncbi pre ncbi_db w = (w1, inr names1) →
  esummary_reply ncbi (log w1) ncbi_db taxon_id 10000%N
    = Parsed (r :: rest) →
  r !! "Rank" = Some rank →
  rank ≠ "species" →
  rank ≠ "genus" →
  get_taxonlist_species ncbi (pre ++ taxon_id :: post) ncbi_db w
  = prepend names1
      (get_taxonlist_species ncbi post ncbi_db
         (sent (summary_request ncbi_db taxon_id) w1)).
Proof.
  intros Hpre Hreply Hrk Hsp Hge.
  rewrite get_taxonlist_species_app, Hpre.
  rewrite get_taxonlist_species_cons, loop_body_eq. simpl.
  rewrite Hreply. unfold rank_outcome. rewrite Hrk.
  rewrite (proj2 (String.eqb_neq _ _) Hsp).
  rewrite bool_decide_eq_false_2.
  - simpl. by destruct (get_taxonlist_species ncbi post ncbi_db _)
      as [w2 [e|l]].
  - by rewrite (qualifying_other_rank r rank Hrk Hsp).
Qed.

(** ** [plot_bar]: errors, shape of the chart, frames *)

Lemma triple_never {A} (P : heap → Prop) (c : M heap A)
    (Q : A → heap → Prop) (E : exn → heap → Prop) :
  triple P c Q never → triple P c Q E.
Proof. intros Hc. eapply triple_weaken; [| | |exact Hc]; done. Qed.

Lemma triple_fails {A} (P : heap → Prop) (c : M heap A)
    (E : exn → heap → Prop) h :
  triple P c (λ _ _, False) E → P h → ∃ h' e, c h = (h', inl e) ∧ E e h'.
Proof.
  intros Hc HP. specialize (Hc h HP).
  destruct (c h) as [h' [e|a]]; [|done]. by exists h', e.
Qed.

(** The keys of the groups are the distinct values of the column. *)
Lemma value_counts_keys (vals : list cell) :
  (value_counts vals).*1 = remove_dups vals.
Proof.
  unfold value_counts. rewrite <- list_fmap_compose.
  induction (remove_dups vals) as [|k ks IH]; [done|].
  by rewrite fmap_cons, IH.
Qed.

Lemma occurrences_Permutation (k : cell) (vals1 vals2 : list cell) :
  vals1 ≡ₚ vals2 → occurrences k vals1 = occurrences k vals2.
Proof. intros Hp. unfold occurrences. by rewrite Hp. Qed.

Lemma value_counts_NoDup (vals : list cell) : NoDup (value_counts vals).
Proof.
  apply (NoDup_fmap_1 fst). rewrite value_counts_keys.
  apply NoDup_remove_dups.
Qed.

Lemma value_counts_Permutation (vals1 vals2 : list cell) :
  vals1 ≡ₚ vals2 → value_counts vals1 ≡ₚ value_counts vals2.
Proof.
  intros Hp. apply NoDup_Permutation; [apply value_counts_NoDup..|].
  intros [v n]. rewrite !elem_of_value_counts.
  rewrite (occurrences_Permutation v _ _ Hp).
  split; intros [Hv Hn]; (split; [|done]); [by rewrite <- Hp|by rewrite Hp].
Qed.

Lemma kept_listed sort_order filter_list (v : cell) :
  kept sort_order filter_list v → v ∈ Some <$> sort_order.
Proof.
  intros (s & -> & Hso & _)%kept_spec. apply list_elem_of_fmap. by exists s.
Qed.

Lemma length_filter_all {A} (P : A → Prop) `{!∀ x, Decision (P x)}
    (l : list A) :
  Forall P l → length (filter P l) = length l.
Proof.
  induction 1 as [|x l HP Hall IH]; [done|].
  rewrite filter_cons, decide_True by done. simpl. by rewrite IH.
Qed.

Lemma kept_empty_filter sort_order (v : cell) :
  kept sort_order (Some []) v = false.
Proof.
  unfold kept, is_in. destruct v as [s|]; [|done].
  destruct (bool_decide (s ∈ sort_order)); reflexivity.
Qed.

Section RunMore.
Variable group_order : list (cell * nat) → list (cell * nat).

(** With duplicates in [sort_order], the re-typing raises. *)
Lemma set_categorical_duplicates df category sort_order dt rows :
  ¬ NoDup sort_order →
  triple
    (holds df {| lib := Pandas; content := Counts category dt rows |})
    (set_categorical df category sort_order)
    (λ _ _, False) (λ e _, e = ValueError).
Proof.
  intros Hdup. unfold set_categorical.
  eapply triple_bind; [apply triple_never, deref_spec|]. intros o.
  intros h [-> Hdf]. rewrite String.eqb_refl. unfold pd_Categorical.
  by rewrite bool_decide_eq_false_2 by done.
Qed.

(** The frame that the chart draws is a new one. *)
Lemma plot_bar_fresh h0 df category sort_order title x_title legend_title
    filter_list :
  triple (keeps h0)
    (plot_bar group_order df category sort_order title x_title
       legend_title filter_list)
    (λ ch _, unknown h0 (chart_data ch)) (λ _ _, True).
Proof.
  assert (∀ l h, keeps h0 h ∧ unknown h0 l → keeps h0 h) as Hfst
    by (intros l h [Hk _]; exact Hk).
  assert (∀ A (c : M heap A) P Q, triple P c Q (λ _, keeps h0) →
            triple P c Q (λ _ _, True)) as Hany.
  { intros A c P Q Hc. eapply triple_weaken; [| | |exact Hc]; done. }
  unfold plot_bar.
  eapply triple_bind; [apply Hany, group_by_len_frame|]. intros df1.
  eapply triple_bind.
  { eapply triple_pre; [apply Hfst|apply Hany, to_pandas_frame]. }
  intros df2.
  eapply triple_bind; [apply Hany, set_categorical_frame|]. intros [].
  eapply triple_bind; [apply Hany, from_pandas_frame|]. intros df3.
  eapply triple_bind.
  { eapply triple_pre; [apply Hfst|apply Hany, filter_col_frame]. }
  intros df4.
  eapply triple_bind with (Q := λ l h, keeps h0 h ∧ unknown h0 l).
  { destruct filter_list as [l|].
    - eapply triple_pre; [apply Hfst|apply Hany, filter_col_frame].
    - by apply triple_ret. }
  intros df5 h [_ Hnew]. unfold bind, plot_bar_of, ret.
  by destruct (sum_len df5 h) as [h' [e|total]].
Qed.
End RunMore.

(** X14. When the dataset has no column [category], [plot_bar] raises the
    error of the dataframe library, [ColumnNotFoundError], as it is, and no
    frame has been made. *)
Theorem plot_bar_missing_column
    (group_order : list (cell * nat) → list (cell * nat))
    (df : loc) (category : string) (sort_order : list string)
    (title x_title legend_title : string)
    (filter_list : option (list string)) (h : heap)
    (cols : gmap string (list cell)) :
  h !! df = Some {| lib := Polars; content := Columns cols |} →
  cols !! category = None →
  plot_bar group_order df category sort_order title x_title legend_title
    filter_list h
  = (h, inl (ColumnNotFoundError category)).
Proof.
  intros Hdf Hcol. unfold plot_bar, group_by_len, deref. unfold bind.
  rewrite Hdf. simpl. by rewrite Hcol.
Qed.

(** X15. When [sort_order] lists a value twice, [plot_bar] raises
    [ValueError]: the categories of [pd.Categorical] must be unique. *)
Theorem plot_bar_duplicate_order
    (group_order : list (cell * nat) → list (cell * nat))
    (df : loc) (category : string) (sort_order : list string)
    (title x_title legend_title : string)
    (filter_list : option (list string)) (h : heap)
    (cols : gmap string (list cell)) (vals : list cell) :
  h !! df = Some {| lib := Polars; content := Columns cols |} →
  cols !! category = Some vals →
  category ≠ "len" →
  ¬ NoDup sort_order →
  (plot_bar group_order df category sort_order title x_title legend_title
     filter_list h).2 = inl ValueError.
Proof.
  intros Hdf Hcol Hlen Hdup.
  assert (triple (holds df {| lib := Polars; content := Columns cols |})
            (plot_bar group_order df category sort_order title x_title
               legend_title filter_list)
            (λ _ _, False) (λ e _, e = ValueError)) as Hrun.
  { unfold plot_bar.
    eapply triple_bind; [by apply triple_never, group_by_len_spec|].
    intros df1.
    eapply triple_bind; [apply triple_never, to_pandas_spec|]. intros df2.
    eapply triple_bind; [by apply set_categorical_duplicates|].
    intros [] h' HF. destruct HF. }
  destruct (triple_fails _ _ _ h Hrun Hdf) as (h' & e & -> & ->). done.
Qed.

(** X16. An empty filter list is a filter: the test is [is not None], so
    with [filter_list = []] the chart draws no row and its x-axis title
    ends in ["N=0"]. *)
Theorem plot_bar_empty_filter
    (group_order : list (cell * nat) → list (cell * nat))
    (df : loc) (category : string) (sort_order : list string)
    (title x_title legend_title : string) (h : heap)
    (cols : gmap string (list cell)) (vals : list cell) :
  h !! df = Some {| lib := Polars; content := Columns cols |} →
  cols !! category = Some vals →
  category ≠ "len" →
  NoDup sort_order →
  ∃ h' ch dt,
    plot_bar group_order df category sort_order title x_title legend_title
      (Some []) h = (h', inr ch)
    ∧ h' !! chart_data ch
      = Some {| lib := Polars; content := Counts category dt [] |}
    ∧ encoding_x_title ch = Some (x_title +:+ ", N=0").
Proof.
  intros Hdf Hcol Hlen Hnd.
  destruct (triple_returns _ _ _ h
              (plot_bar_spec group_order df category sort_order title x_title
                 legend_title (Some []) cols vals Hcol Hlen Hnd) Hdf)
    as (h' & ch & Hrun & Hdata & Hch).
  rewrite filter_none in Hdata, Hch.
  - exists h', ch, (Categorical sort_order).
    split; [exact Hrun|]. split; [exact Hdata|]. by rewrite Hch.
  - intros [v n] _. simpl. rewrite kept_empty_filter. exact id.
  - intros [v n] _. simpl. rewrite kept_empty_filter. exact id.
Qed.

(** X17. The frame that the chart draws has one row per value: no value
    occurs in two rows, every count is at least 1, and there are no more
    rows than entries of [sort_order]. *)
Theorem plot_bar_rows_shape
    (group_order : list (cell * nat) → list (cell * nat))
    (df : loc) (category : string) (sort_order : list string)
    (title x_title legend_title : string)
    (filter_list : option (list string)) (h : heap)
    (cols : gmap string (list cell)) (vals : list cell) :
  (∀ l, group_order l ≡ₚ l) →
  h !! df = Some {| lib := Polars; content := Columns cols |} →
  cols !! category = Some vals →
  category ≠ "len" →
  NoDup sort_order →
  ∃ h' ch dt rows,
    plot_bar group_order df category sort_order title x_title legend_title
      filter_list h = (h', inr ch)
    ∧ h' !! chart_data ch
      = Some {| lib := Polars; content := Counts category dt rows |}
    ∧ NoDup rows.*1
    ∧ Forall (λ r, 1 ≤ r.2) rows
    ∧ length rows ≤ length sort_order.
Proof.
  intros Hperm Hdf Hcol Hlen Hnd.
  destruct (triple_returns _ _ _ h
              (plot_bar_spec group_order df category sort_order title x_title
                 legend_title filter_list cols vals Hcol Hlen Hnd) Hdf)
    as (h' & ch & Hrun & Hdata & _).
  exists h', ch, (Categorical sort_order). eexists.
  split; [exact Hrun|]. split; [exact Hdata|].
  assert (NoDup (filter (λ r, kept sort_order filter_list r.1)
                   (group_order (value_counts vals))).*1) as Hkeys.
  { eapply sublist_NoDup;
      [|apply fmap_sublist, sublist_filter; apply _].
    rewrite (Hperm _), value_counts_keys. apply NoDup_remove_dups. }
  split; [exact Hkeys|]. split.
  - apply Forall_forall. intros [v n] Hin. simpl.
    apply list_elem_of_filter in Hin as [_ Hin].
    rewrite (Hperm _) in Hin. apply elem_of_value_counts in Hin as [Hv ->].
    apply occurrences_pos in Hv. lia.
  - rewrite <- (length_fmap fst), <- (length_fmap Some sort_order).
    apply submseteq_length, NoDup_submseteq; [exact Hkeys|].
    intros v Hv. apply list_elem_of_fmap in Hv as ([v' n] & -> & Hin).
    apply list_elem_of_filter in Hin as [Hkept _].
    by eapply kept_listed.
Qed.

(** X18. The total [N] of the x-axis title is at most the number of rows
    of the dataset, and it is this number when no filter is given and
    every value of the column is listed in [sort_order] (none is null). *)
Theorem plot_bar_total_bound
    (group_order : list (cell * nat) → list (cell * nat))
    (df : loc) (category : string) (sort_order : list string)
    (title x_title legend_title : string)
    (filter_list : option (list string)) (h : heap)
    (cols : gmap string (list cell)) (vals : list cell) :
  (∀ l, group_order l ≡ₚ l) →
  h !! df = Some {| lib := Polars; content := Columns cols |} →
  cols !! category = Some vals →
  category ≠ "len" →
  NoDup sort_order →
  ∃ h' ch total,
    plot_bar group_order df category sort_order title x_title legend_title
      filter_list h = (h', inr ch)
    ∧ encoding_x_title ch = Some (x_title +:+ ", N=" +:+ int_to_str total)
    ∧ total ≤ length vals
    ∧ (filter_list = None →
       Forall (λ v, ∃ s, v = Some s ∧ s ∈ sort_order) vals →
       total = length vals).
Proof.
  intros Hperm Hdf Hcol Hlen Hnd.
  destruct (triple_returns _ _ _ h
              (plot_bar_spec group_order df category sort_order title x_title
                 legend_title filter_list cols vals Hcol Hlen Hnd) Hdf)
    as (h' & ch & Hrun & _ & Hch).
  exists h', ch, (length (filter (λ v, kept sort_order filter_list v) vals)).
  split; [exact Hrun|]. split.
  { rewrite Hch. simpl. by rewrite (Hperm _), sum_counts. }
  split; [apply length_filter|].
  intros -> Hall. apply length_filter_all.
  eapply Forall_impl; [exact Hall|]. intros v (s & -> & Hs).
  apply kept_spec. by exists s.
Qed.

(** X19. The frame that the chart draws is a new one: when [plot_bar]
    returns a chart, the chart does not refer to any frame that existed
    before the call, the dataset included. *)
Theorem plot_bar_draws_new_frame
    (group_order : list (cell * nat) → list (cell * nat))
    (df : loc) (category : string) (sort_order : list string)
    (title x_title legend_title : string)
    (filter_list : option (list string)) (h h' : heap) (ch : chart) :
  plot_bar group_order df category sort_order title x_title legend_title
    filter_list h = (h', inr ch) →
  h !! chart_data ch = None ∧ chart_data ch ≠ df.
Proof.
  intros Hrun.
  pose proof (plot_bar_fresh group_order h df category sort_order title
                x_title legend_title filter_list h) as Hfresh.
  assert (keeps h h) as Hrefl by (by unfold keeps).
  specialize (Hfresh Hrefl). rewrite Hrun in Hfresh.
  split; [exact Hfresh|]. intros Heq.
  rewrite Heq in Hfresh. unfold unknown in Hfresh.
  unfold plot_bar, group_by_len, deref in Hrun. unfold bind in Hrun.
  by rewrite Hfresh in Hrun.
Qed.

(** X20. The chart does not depend on the order of the rows of the dataset
    nor on the order in which the groups come out: two datasets whose
    columns are permutations of each other give the same x-axis title and
    the same rows, up to their order. *)
Theorem plot_bar_row_order
    (group_order1 group_order2 : list (cell * nat) → list (cell * nat))
    (df1 df2 : loc) (category : string) (sort_order : list string)
    (title x_title legend_title : string)
    (filter_list : option (list string)) (h1 h2 : heap)
    (cols1 cols2 : gmap string (list cell)) (vals1 vals2 : list cell) :
  (∀ l, group_order1 l ≡ₚ l) →
  (∀ l, group_order2 l ≡ₚ l) →
  h1 !! df1 = Some {| lib := Polars; content := Columns cols1 |} →
  h2 !! df2 = Some {| lib := Polars; content := Columns cols2 |} →
  cols1 !! category = Some vals1 →
  cols2 !! category = Some vals2 →
  vals1 ≡ₚ vals2 →
  category ≠ "len" →
  NoDup sort_order →
  ∃ h1' h2' ch1 ch2 dt rows1 rows2,
    plot_bar group_order1 df1 category sort_order title x_title legend_title
      filter_list h1 = (h1', inr ch1)
    ∧ plot_bar group_order2 df2 category sort_order title x_title
        legend_title filter_list h2 = (h2', inr ch2)
    ∧ h1' !! chart_data ch1
      = Some {| lib := Polars; content := Counts category dt rows1 |}
    ∧ h2' !! chart_data ch2
      = Some {| lib := Polars; content := Counts category dt rows2 |}
    ∧ rows1 ≡ₚ rows2
    ∧ encoding_x_title ch1 = encoding_x_title ch2.
Proof.
  intros Hperm1 Hperm2 Hdf1 Hdf2 Hcol1 Hcol2 Hvals Hlen Hnd.
  destruct (triple_returns _ _ _ h1
              (plot_bar_spec group_order1 df1 category sort_order title
                 x_title legend_title filter_list cols1 vals1 Hcol1 Hlen Hnd)
              Hdf1)
    as (h1' & ch1 & Hrun1 & Hdata1 & Hch1).
  destruct (triple_returns _ _ _ h2
              (plot_bar_spec group_order2 df2 category sort_order title
                 x_title legend_title filter_list cols2 vals2 Hcol2 Hlen Hnd)
              Hdf2)
    as (h2' & ch2 & Hrun2 & Hdata2 & Hch2).
  assert (filter (λ r, kept sort_order filter_list r.1)
            (group_order1 (value_counts vals1))
          ≡ₚ filter (λ r, kept sort_order filter_list r.1)
               (group_order2 (value_counts vals2))) as Hrows.
  { by rewrite (Hperm1 _), (Hperm2 _), (value_counts_Permutation _ _ Hvals). }
  exists h1', h2', ch1, ch2, (Categorical sort_order). do 2 eexists.
  split; [exact Hrun1|]. split; [exact Hrun2|].
  split; [exact Hdata1|]. split; [exact Hdata2|].
  split; [exact Hrows|].
  rewrite Hch1, Hch2. simpl. by rewrite Hrows.
Qed.

(** ** Instances of the further properties *)

Lemma last_seen_perm rows : last_seen rows ≡ₚ rows.
Proof. apply reverse_Permutation. Qed.

Lemma shuffled_column_perm : example_column ≡ₚ shuffled_column.
Proof. symmetry. apply (reverse_Permutation example_column). Qed.

Lemma verbose_ncbi_alike log0 db id retmax :
  alike (esummary_reply example_ncbi log0 db id retmax)
    (esummary_reply verbose_ncbi log0 db id retmax).
Proof.
  unfold verbose_ncbi, esummary_reply at 2.
  destruct (esummary_reply example_ncbi log0 db id retmax) as [e|[|r rs]];
    simpl; [done..|].
  unfold alike_records. by rewrite !lookup_insert_ne.
Qed.

Lemma get_taxon_id_raises_witness :
  ValueError ≠ HTTPError
  ∧ (esearch_reply faulty_ncbi (log new_world) default_db
       ("Elodea" +:+ "[orgn]") 10000%N = Raises ValueError
     ∨ ∃ record,
         esearch_reply faulty_ncbi (log new_world) default_db
           ("Elodea" +:+ "[orgn]") 10000%N = Parsed record
         ∧ record !! "IdList" = None ∧ ValueError = KeyError "IdList").
Proof.
  apply (get_taxon_id_raises faulty_ncbi "Elodea" default_db default_idtype
           new_world
           (sent (ESearch default_db "Elodea[orgn]" 10000%N) new_world)).
  reflexivity.
Defined.

Lemma get_taxon_id_missing_idlist_witness :
  get_taxon_id faulty_ncbi "Lemna" default_db default_idtype new_world
  = (sent (ESearch default_db "Lemna[orgn]" 10000%N) new_world,
     inl (KeyError "IdList")).
Proof.
  apply (get_taxon_id_missing_idlist faulty_ncbi "Lemna" default_db
           default_idtype new_world {[ "Count" := PStr "0" ]}).
  - reflexivity.
  - reflexivity.
Defined.

Lemma get_taxon_id_returns_witness :
  (esearch_reply example_ncbi (log new_world) default_db
     ("Lemna" +:+ "[orgn]") 10000%N = Raises HTTPError
   ∧ PList ["4471"; "4472"] = PStr "Database error, try later...")
  ∨ ∃ record,
      esearch_reply example_ncbi (log new_world) default_db
        ("Lemna" +:+ "[orgn]") 10000%N = Parsed record
      ∧ record !! "IdList" = Some (PList ["4471"; "4472"]).
Proof.
  apply (get_taxon_id_returns example_ncbi "Lemna" default_db default_idtype
           new_world
           (sent (ESearch default_db "Lemna[orgn]" 10000%N) new_world)).
  reflexivity.
Defined.

Lemma rank_filter_raises_witness :
  KeyError "Genus" ≠ IndexError
  ∧ ∃ i id,
      ["G"; "S"; "C"] !! i = Some id
      ∧ failure (esummary_reply faulty_ncbi
                   (log new_world
                    ++ (summary_request default_db <$> take i ["G"; "S"; "C"]))
                   default_db id 10000%N) (KeyError "Genus").
Proof.
  apply (rank_filter_raises faulty_ncbi ["G"; "S"; "C"] default_db new_world
           {| log := summary_request default_db <$> ["G"; "S"];
              stdout := [] |}).
  reflexivity.
Defined.

Lemma rank_filter_diagnostics_witness :
  let skipped := length (filter (λ rp, empty_answer rp)
                           (replies faulty_ncbi default_db (log new_world)
                              ["I"; "B"; "0"; "F"])) in
  stdout {| log := summary_request default_db <$> ["I"; "B"; "0"; "F"];
            stdout := ["New Error. Nemas Problemas!";
                       "New Error. Nemas Problemas!"] |}
  = stdout new_world ++ replicate skipped "New Error. Nemas Problemas!"
  ∧ length ["Lemna"] + skipped ≤ length ["I"; "B"; "0"; "F"].
Proof.
  apply (rank_filter_diagnostics faulty_ncbi ["I"; "B"; "0"; "F"] default_db
           new_world).
  reflexivity.
Defined.

Lemma rank_filter_app_witness :
  get_taxonlist_species example_ncbi (["A"; "B"] ++ ["C"; "B"]) default_db
    new_world
  = ({| log := summary_request default_db <$> ["A"; "B"; "C"; "B"];
        stdout := [] |},
     inr (["Lemna"] ++ ["Lemna minor"; "Lemna"])).
Proof.
  apply (rank_filter_app example_ncbi ["A"; "B"] ["C"; "B"] default_db
           new_world
           {| log := summary_request default_db <$> ["A"; "B"];
              stdout := [] |}).
  - reflexivity.
  - reflexivity.
Defined.

Lemma rank_filter_reads_first_record_witness :
  get_taxonlist_species example_ncbi ["A"; "B"; "0"; "C"] default_db new_world
  = get_taxonlist_species verbose_ncbi ["A"; "B"; "0"; "C"] default_db
      new_world.
Proof.
  apply (rank_filter_reads_first_record example_ncbi verbose_ncbi
           ["A"; "B"; "0"; "C"] default_db new_world).
  apply verbose_ncbi_alike.
Defined.

Lemma rank_filter_species_without_genus_witness :
  get_taxonlist_species faulty_ncbi (["G"] ++ "S" :: ["C"]) default_db
    new_world
  = (sent (summary_request default_db "S")
       {| log := [summary_request default_db "G"]; stdout := [] |},
     inl (KeyError "Genus")).
Proof.
  apply (rank_filter_species_without_genus faulty_ncbi ["G"] "S" ["C"]
           default_db new_world _ ["Lemna"]
           {[ "Rank" := "species"; "ScientificName" := "Lemna minor" ]} []).
  - reflexivity.
  - reflexivity.
  - reflexivity.
  - reflexivity.
Defined.

Lemma rank_filter_genus_needs_no_genus_witness :
  get_taxonlist_species faulty_ncbi (["C"] ++ "G" :: ["B"]) default_db
    new_world
  = prepend (["Lemna minor"] ++ ["Lemna"])
      (get_taxonlist_species faulty_ncbi ["B"] default_db
         (sent (summary_request default_db "G")
            {| log := [summary_request default_db "C"]; stdout := [] |})).
Proof.
  apply (rank_filter_genus_needs_no_genus faulty_ncbi ["C"] "G" ["B"]
           default_db new_world _ ["Lemna minor"]
           {[ "Rank" := "genus"; "ScientificName" := "Lemna" ]} []).
  - reflexivity.
  - reflexivity.
  - reflexivity.
  - reflexivity.
Defined.

Lemma rank_filter_other_rank_witness :
  get_taxonlist_species faulty_ncbi (["C"] ++ "F" :: ["B"]) default_db
    new_world
  = prepend ["Lemna minor"]
      (get_taxonlist_species faulty_ncbi ["B"] default_db
         (sent (summary_request default_db "F")
            {| log := [summary_request default_db "C"]; stdout := [] |})).
Proof.
  apply (rank_filter_other_rank faulty_ncbi ["C"] "F" ["B"] default_db
           new_world _ ["Lemna minor"] {[ "Rank" := "family" ]} [] "family").
  - reflexivity.
  - reflexivity.
  - reflexivity.
  - discriminate.
  - discriminate.
Defined.

Lemma plot_bar_missing_column_witness :
  plot_bar first_seen 1%positive "colour" ["x"; "y"] "Kinds" "Share" "Kind"
    None example_heap
  = (example_heap, inl (ColumnNotFoundError "colour")).
Proof.
  apply (plot_bar_missing_column first_seen 1%positive "colour" ["x"; "y"]
           "Kinds" "Share" "Kind" None example_heap
           {[ "kind" := example_column ]}).
  - reflexivity.
  - reflexivity.
Defined.

Lemma plot_bar_duplicate_order_witness :
  (plot_bar first_seen 1%positive "kind" ["x"; "y"; "x"] "Kinds" "Share"
     "Kind" None example_heap).2 = inl ValueError.
Proof.
  apply (plot_bar_duplicate_order first_seen 1%positive "kind"
           ["x"; "y"; "x"] "Kinds" "Share" "Kind" None example_heap
           {[ "kind" := example_column ]} example_column).
  - reflexivity.
  - reflexivity.
  - discriminate.
  - apply (bool_decide_eq_false (NoDup ["x"; "y"; "x"])). vm_compute.
    reflexivity.
Defined.

Lemma plot_bar_empty_filter_witness :
  ∃ h' ch dt,
    plot_bar first_seen 1%positive "kind" ["x"; "y"] "Kinds" "Share" "Kind"
      (Some []) example_heap = (h', inr ch)
    ∧ h' !! chart_data ch
      = Some {| lib := Polars; content := Counts "kind" dt [] |}
    ∧ encoding_x_title ch = Some ("Share" +:+ ", N=0").
Proof.
  apply (plot_bar_empty_filter first_seen 1%positive "kind" ["x"; "y"]
           "Kinds" "Share" "Kind" example_heap
           {[ "kind" := example_column ]} example_column).
  - reflexivity.
  - reflexivity.
  - discriminate.
  - apply (bool_decide_unpack (NoDup ["x"; "y"])). vm_compute. exact I.
Defined.

Lemma plot_bar_rows_shape_witness :
  ∃ h' ch dt rows,
    plot_bar first_seen 1%positive "kind" ["x"; "y"] "Kinds" "Share" "Kind"
      None example_heap = (h', inr ch)
    ∧ h' !! chart_data ch
      = Some {| lib := Polars; content := Counts "kind" dt rows |}
    ∧ NoDup rows.*1
    ∧ Forall (λ r, 1 ≤ r.2) rows
    ∧ length rows ≤ length ["x"; "y"].
Proof.
  apply (plot_bar_rows_shape first_seen 1%positive "kind" ["x"; "y"]
           "Kinds" "Share" "Kind" None example_heap
           {[ "kind" := example_column ]} example_column).
  - apply first_seen_perm.
  - reflexivity.
  - reflexivity.
  - discriminate.
  - apply (bool_decide_unpack (NoDup ["x"; "y"])). vm_compute. exact I.
Defined.

Lemma plot_bar_total_bound_witness :
  ∃ h' ch total,
    plot_bar last_seen 1%positive "kind" ["x"; "y"] "Kinds" "Share" "Kind"
      (Some ["y"; "w"]) example_heap = (h', inr ch)
    ∧ encoding_x_title ch = Some ("Share" +:+ ", N=" +:+ int_to_str total)
    ∧ total ≤ length example_column
    ∧ (Some ["y"; "w"] = None →
       Forall (λ v, ∃ s, v = Some s ∧ s ∈ ["x"; "y"]) example_column →
       total = length example_column).
Proof.
  apply (plot_bar_total_bound last_seen 1%positive "kind" ["x"; "y"]
           "Kinds" "Share" "Kind" (Some ["y"; "w"]) example_heap
           {[ "kind" := example_column ]} example_column).
  - apply last_seen_perm.
  - reflexivity.
  - reflexivity.
  - discriminate.
  - apply (bool_decide_unpack (NoDup ["x"; "y"])). vm_compute. exact I.
Defined.

Lemma plot_bar_draws_new_frame_witness :
  let run := plot_bar first_seen 1%positive "kind" ["x"; "y"] "Kinds" "Share"
               "Kind" (Some ["x"]) example_heap in
  ∃ ch, run.2 = inr ch
        ∧ example_heap !! chart_data ch = None
        ∧ chart_data ch ≠ 1%positive.
Proof.
  simpl. eexists. split; [vm_compute; reflexivity|].
  eapply (plot_bar_draws_new_frame first_seen 1%positive "kind" ["x"; "y"]
            "Kinds" "Share" "Kind" (Some ["x"]) example_heap).
  vm_compute. reflexivity.
Defined.

Lemma plot_bar_row_order_witness :
  ∃ h1' h2' ch1 ch2 dt rows1 rows2,
    plot_bar first_seen 1%positive "kind" ["x"; "y"] "Kinds" "Share" "Kind"
      None example_heap = (h1', inr ch1)
    ∧ plot_bar last_seen 7%positive "kind" ["x"; "y"] "Kinds" "Share" "Kind"
        None shuffled_heap = (h2', inr ch2)
    ∧ h1' !! chart_data ch1
      = Some {| lib := Polars; content := Counts "kind" dt rows1 |}
    ∧ h2' !! chart_data ch2
      = Some {| lib := Polars; content := Counts "kind" dt rows2 |}
    ∧ rows1 ≡ₚ rows2
    ∧ encoding_x_title ch1 = encoding_x_title ch2.
Proof.
  apply (plot_bar_row_order first_seen last_seen 1%positive 7%positive "kind"
           ["x"; "y"] "Kinds" "Share" "Kind" None example_heap shuffled_heap
           {[ "kind" := example_column ]} {[ "kind" := shuffled_column ]}
           example_column shuffled_column).
  - apply first_seen_perm.
  - apply last_seen_perm.
  - reflexivity.
  - reflexivity.
  - reflexivity.
  - reflexivity.
  - apply shuffled_column_perm.
  - discriminate.
  - apply (bool_decide_unpack (NoDup ["x"; "y"])). vm_compute. exact I.
Defined.

Lemma get_taxon_id_propagates_witness :
  get_taxon_id faulty_ncbi "Elodea" default_db default_idtype new_world
  = (sent (ESearch default_db ("Elodea" +:+ "[orgn]") 10000%N) new_world,
     inl ValueError).
Proof.
  apply (get_taxon_id_propagates faulty_ncbi "Elodea" default_db
           default_idtype new_world ValueError).
  - reflexivity.
  - discriminate.
Defined.
